(** * Cognate proxy: routing, stream transcoding and tool-call assembly

    A shallow embedding of the request path of the proxy:

    - [getHandlerForRequest]       (src/proxy-server.ts, lines 49-94),
    - the [/v1/messages] stream    (src/proxy-server.ts, lines 125-248),
    - [handleStreamingResponse]    (src/handlers/openrouter-handler.ts, lines 155-246),
    - [GeminiNativeHandler.generate], request side
                                   (src/handlers/gemini-native-handler.ts, lines 25-127).

    JavaScript strings are sequences of UTF-16 code units and are modelled as
    lists of code units; JSON values follow [JSON.parse] / [JSON.stringify].

    Conventions of the model:
    - a JSON number is kept as the text of its literal: the double it denotes
      is not computed, so a number prints as it was written and is falsy when
      the digits of its mantissa are all zero;
    - a statement that may throw returns the state it reached and how it
      ended ([Normal] or [Thrown]); a [try]/[catch] that only logs goes on
      from the state reached;
    - [onChunk] takes strings: the aggregator handler hands it the truthy
      [delta.content], which the model converts to a string as the
      concatenation next to it does;
    - the handler of a request is seen by the stream as one run: its calls of
      [onChunk] in order, then its result or its error. The preparation of
      the backend request in [OpenRouterHandler.generate] and a client that
      goes away during the stream are outside the model. *)

From Stdlib Require Import Ascii String List NArith Bool Arith Lia Sorted.
Import ListNotations.

Set Implicit Arguments.
Set Warnings "-register-all".

(* ================================================================== *)
(** * JavaScript strings *)
(* ================================================================== *)

Definition code_unit := N.
Definition jsstring := list code_unit.

(** The string of an ASCII literal. *)
Definition js (s : string) : jsstring := map N_of_ascii (list_ascii_of_string s).

(** JSON text in the examples is written with ['] for the double quote. *)
Definition jsq (s : string) : jsstring :=
  map (fun c => if N.eqb c 39 then 34%N else c) (js s).

Fixpoint jsstring_eqb (a b : jsstring) : bool :=
  match a, b with
  | [], [] => true
  | x :: a', y :: b' => N.eqb x y && jsstring_eqb a' b'
  | _, _ => false
  end.

(** [s.startsWith(p)] *)
Fixpoint startsWith (p s : jsstring) : bool :=
  match p, s with
  | [], _ => true
  | x :: p', y :: s' => N.eqb x y && startsWith p' s'
  | _ :: _, [] => false
  end.

(** [s.includes(p)] *)
Fixpoint includes (p s : jsstring) : bool :=
  startsWith p s ||
  match s with
  | [] => false
  | _ :: s' => includes p s'
  end.

(** [s.slice(n)] for [0 <= n] and [s.slice(0, -1)]. *)
Definition slice_from (n : nat) (s : jsstring) : jsstring := skipn n s.
Definition slice_drop_last (s : jsstring) : jsstring := removelast s.

(** [s.split(sep)] for a one-unit separator: never the empty list. *)
Fixpoint split (sep : code_unit) (s : jsstring) : list jsstring :=
  match s with
  | [] => [[]]
  | c :: r =>
      if N.eqb c sep then [] :: split sep r
      else match split sep r with
           | l :: ls => (c :: l) :: ls
           | [] => [[c]]
           end
  end.

(** WhiteSpace and LineTerminator code units, as [String.prototype.trim] strips them. *)
Definition isWhiteSpace (c : code_unit) : bool :=
  ((9 <=? c) && (c <=? 13) || (c =? 32) || (c =? 160) || (c =? 5760)
   || ((8192 <=? c) && (c <=? 8202)) || (c =? 8232) || (c =? 8233)
   || (c =? 8239) || (c =? 8287) || (c =? 12288) || (c =? 65279))%N.

Fixpoint trimStart (s : jsstring) : jsstring :=
  match s with
  | c :: r => if isWhiteSpace c then trimStart r else s
  | [] => []
  end.

Definition trim (s : jsstring) : jsstring := rev (trimStart (rev (trimStart s))).

(** Truthiness of a string: non-empty. *)
Definition nonEmpty (s : jsstring) : bool :=
  match s with [] => false | _ :: _ => true end.

(** A configured (defined and non-empty) optional string. *)
Definition truthyStr (o : option jsstring) : bool :=
  match o with Some s => nonEmpty s | None => false end.

(** Decimal digits of a natural number, as in a template literal; a number
    has at most [log2 n + 1] digits. *)
Fixpoint decimal_aux (fuel : nat) (n : N) (acc : jsstring) : jsstring :=
  match fuel with
  | O => acc
  | S f =>
      let acc' := (48 + n mod 10)%N :: acc in
      if (n <? 10)%N then acc' else decimal_aux f (n / 10)%N acc'
  end.

Definition decimal (n : N) : jsstring := decimal_aux (S (N.to_nat (N.log2 n))) n [].

(* ================================================================== *)
(** * JSON values, [JSON.parse], [JSON.stringify] *)
(* ================================================================== *)

(** An object keeps its members in property order. *)
Inductive json : Type :=
| JNull
| JBool (b : bool)
| JNum (literal : jsstring)
| JStr (s : jsstring)
| JArr (elements : list json)
| JObj (members : list (jsstring * json)).

(** ** Tokens *)

Inductive token : Type :=
| TLBrace | TRBrace | TLBracket | TRBracket | TComma | TColon
| TNull | TTrue | TFalse
| TNum (literal : jsstring)
| TStr (s : jsstring).

Definition isDigit (c : code_unit) : bool := ((48 <=? c) && (c <=? 57))%N.

Definition hexValue (c : code_unit) : option N :=
  if isDigit c then Some (c - 48)%N
  else if ((97 <=? c) && (c <=? 102))%N then Some (c - 87)%N
  else if ((65 <=? c) && (c <=? 70))%N then Some (c - 55)%N
  else None.

(** Longest run of digits at the head of [s]. *)
Fixpoint spanDigits (s : jsstring) : jsstring * jsstring :=
  match s with
  | c :: r =>
      if isDigit c then let (d, rest) := spanDigits r in (c :: d, rest)
      else ([], s)
  | [] => ([], [])
  end.

(** A number literal: an optional minus sign, then 0 or a digit run without
    leading zero, then an optional fraction (a dot and at least one digit),
    then an optional exponent (e or E, an optional sign, at least one digit). *)
Definition lexNumber (s : jsstring) : option (jsstring * jsstring) :=
  let (sign, s1) :=
    match s with
    | c :: r => if (c =? 45)%N then ([c], r) else ([], s)
    | [] => ([], s)
    end in
  let int :=
    match s1 with
    | c :: r =>
        if (c =? 48)%N then Some ([c], r)
        else if isDigit c then Some (spanDigits s1)
        else None
    | [] => None
    end in
  match int with
  | None => None
  | Some (i, s2) =>
      let frac :=
        match s2 with
        | c :: r =>
            if (c =? 46)%N then
              match spanDigits r with
              | ([], _) => None
              | (d, rest) => Some (c :: d, rest)
              end
            else Some ([], s2)
        | [] => Some ([], s2)
        end in
      match frac with
      | None => None
      | Some (f, s3) =>
          let expo :=
            match s3 with
            | c :: r =>
                if ((c =? 101) || (c =? 69))%N then
                  let (sg, r') :=
                    match r with
                    | d :: r'' => if ((d =? 43) || (d =? 45))%N then ([d], r'') else ([], r)
                    | [] => ([], r)
                    end in
                  match spanDigits r' with
                  | ([], _) => None
                  | (d, rest) => Some (c :: sg ++ d, rest)
                  end
                else Some ([], s3)
            | [] => Some ([], s3)
            end in
          match expo with
          | None => None
          | Some (e, s4) => Some (sign ++ i ++ f ++ e, s4)
          end
      end
  end.

(** The body of a string literal, after the opening quote: the decoded
    string and what follows the closing quote. *)
Fixpoint lexString (s : jsstring) (acc : jsstring) : option (jsstring * jsstring) :=
  match s with
  | [] => None
  | c :: r =>
      if (c =? 34)%N then Some (rev acc, r)
      else if (c <? 32)%N then None
      else if (c =? 92)%N then
        match r with
        | e :: r1 =>
            if (e =? 34)%N then lexString r1 (34%N :: acc)
            else if (e =? 92)%N then lexString r1 (92%N :: acc)
            else if (e =? 47)%N then lexString r1 (47%N :: acc)
            else if (e =? 98)%N then lexString r1 (8%N :: acc)
            else if (e =? 102)%N then lexString r1 (12%N :: acc)
            else if (e =? 110)%N then lexString r1 (10%N :: acc)
            else if (e =? 114)%N then lexString r1 (13%N :: acc)
            else if (e =? 116)%N then lexString r1 (9%N :: acc)
            else if (e =? 117)%N then
              match r1 with
              | h1 :: h2 :: h3 :: h4 :: r2 =>
                  match hexValue h1, hexValue h2, hexValue h3, hexValue h4 with
                  | Some a, Some b, Some c', Some d =>
                      lexString r2 ((a * 4096 + b * 256 + c' * 16 + d)%N :: acc)
                  | _, _, _, _ => None
                  end
              | _ => None
              end
            else None
        | [] => None
        end
      else lexString r (c :: acc)
  end.

(** JSON white space: tab, line feed, carriage return, space. *)
Definition isJsonSpace (c : code_unit) : bool :=
  ((c =? 9) || (c =? 10) || (c =? 13) || (c =? 32))%N.

(** The token at the head of [s], which is no white space, and what
    follows it. *)
Definition lexToken (s : jsstring) : option (token * jsstring) :=
  match s with
  | [] => None
  | c :: r =>
      if (c =? 123)%N then Some (TLBrace, r)
      else if (c =? 125)%N then Some (TRBrace, r)
      else if (c =? 91)%N then Some (TLBracket, r)
      else if (c =? 93)%N then Some (TRBracket, r)
      else if (c =? 44)%N then Some (TComma, r)
      else if (c =? 58)%N then Some (TColon, r)
      else if (c =? 34)%N then
        match lexString r [] with
        | Some (str, rest) => Some (TStr str, rest)
        | None => None
        end
      else if startsWith (js "null") s then Some (TNull, skipn 4 s)
      else if startsWith (js "true") s then Some (TTrue, skipn 4 s)
      else if startsWith (js "false") s then Some (TFalse, skipn 5 s)
      else
        match lexNumber s with
        | Some (lit, rest) => Some (TNum lit, rest)
        | None => None
        end
  end.

(** The tokens of [s]. After a token is read at the head of the text, the
    code units it covers beyond the first are passed over: [skip] counts
    those still to pass. *)
Fixpoint tokenize (s : jsstring) (skip : nat) : option (list token) :=
  match s with
  | [] => Some []
  | c :: r =>
      match skip with
      | S k => tokenize r k
      | O =>
          if isJsonSpace c then tokenize r 0
          else
            match lexToken s with
            | Some (t, rest) =>
                match tokenize r (length r - length rest) with
                | Some ts => Some (t :: ts)
                | None => None
                end
            | None => None
            end
      end
  end.

(** ** Objects in property order *)

(** An array index: a canonical numeric string below [2^32 - 1]. *)
Definition digitsValue (s : jsstring) : N :=
  fold_left (fun acc c => (acc * 10 + (c - 48))%N) s 0%N.

Definition arrayIndex (k : jsstring) : option N :=
  match k with
  | [] => None
  | c :: r =>
      if forallb isDigit k && (negb (c =? 48)%N || match r with [] => true | _ => false end)
         && (length k <=? 10)%nat && (digitsValue k <? 4294967295)%N
      then Some (digitsValue k)
      else None
  end.

Fixpoint lookup (k : jsstring) (m : list (jsstring * json)) : option json :=
  match m with
  | [] => None
  | (k', v) :: m' => if jsstring_eqb k k' then Some v else lookup k m'
  end.

Fixpoint replaceMember (k : jsstring) (v : json) (m : list (jsstring * json))
  : list (jsstring * json) :=
  match m with
  | [] => []
  | (k', v') :: m' =>
      if jsstring_eqb k k' then (k', v) :: m' else (k', v') :: replaceMember k v m'
  end.

(** Place of a new index key: before the first key that is no index or a larger one. *)
Fixpoint insertIndex (i : N) (k : jsstring) (v : json) (m : list (jsstring * json))
  : list (jsstring * json) :=
  match m with
  | [] => [(k, v)]
  | (k', v') :: m' =>
      match arrayIndex k' with
      | Some i' => if (i' <? i)%N then (k', v') :: insertIndex i k v m' else (k, v) :: m
      | None => (k, v) :: m
      end
  end.

(** Defining property [k]: an existing key keeps its place and takes the new
    value; a new index key goes among the index keys in ascending order; any
    other new key goes last. *)
Definition setMember (m : list (jsstring * json)) (k : jsstring) (v : json)
  : list (jsstring * json) :=
  match lookup k m with
  | Some _ => replaceMember k v m
  | None =>
      match arrayIndex k with
      | Some i => insertIndex i k v m
      | None => m ++ [(k, v)]
      end
  end.

(** ** Parser *)

(** The value under construction that encloses the current position: an
    array with its elements so far, latest first, or an object with its
    members so far and the key whose value is being read. *)
Inductive context : Type :=
| InArray (acc : list json)
| InObject (acc : list (jsstring * json)) (key : jsstring).

(** What the parser expects next, inside the enclosing values [stack]. *)
Inductive parser : Type :=
| ExpectValue (stack : list context)
| ExpectValueOrEnd (stack : list context)
| ExpectKeyOrEnd (stack : list context)
| ExpectKey (acc : list (jsstring * json)) (stack : list context)
| ExpectColon (acc : list (jsstring * json)) (key : jsstring) (stack : list context)
| AfterValue (v : json) (stack : list context).

(** A token where a value may start. *)
Definition startValue (stack : list context) (t : token) : option parser :=
  match t with
  | TNull => Some (AfterValue JNull stack)
  | TTrue => Some (AfterValue (JBool true) stack)
  | TFalse => Some (AfterValue (JBool false) stack)
  | TNum l => Some (AfterValue (JNum l) stack)
  | TStr s => Some (AfterValue (JStr s) stack)
  | TLBracket => Some (ExpectValueOrEnd stack)
  | TLBrace => Some (ExpectKeyOrEnd stack)
  | _ => None
  end.

(** One token; [None] is the syntax error. *)
Definition parseToken (p : parser) (t : token) : option parser :=
  match p with
  | ExpectValue stack => startValue stack t
  | ExpectValueOrEnd stack =>
      match t with
      | TRBracket => Some (AfterValue (JArr []) stack)
      | _ => startValue (InArray [] :: stack) t
      end
  | ExpectKeyOrEnd stack =>
      match t with
      | TRBrace => Some (AfterValue (JObj []) stack)
      | TStr k => Some (ExpectColon [] k stack)
      | _ => None
      end
  | ExpectKey acc stack =>
      match t with
      | TStr k => Some (ExpectColon acc k stack)
      | _ => None
      end
  | ExpectColon acc k stack =>
      match t with
      | TColon => Some (ExpectValue (InObject acc k :: stack))
      | _ => None
      end
  | AfterValue v stack =>
      match stack, t with
      | InArray acc :: stack', TComma => Some (ExpectValue (InArray (v :: acc) :: stack'))
      | InArray acc :: stack', TRBracket => Some (AfterValue (JArr (rev (v :: acc))) stack')
      | InObject acc k :: stack', TComma => Some (ExpectKey (setMember acc k v) stack')
      | InObject acc k :: stack', TRBrace =>
          Some (AfterValue (JObj (setMember acc k v)) stack')
      | _, _ => None
      end
  end.

Fixpoint parseTokens (p : parser) (ts : list token) : option parser :=
  match ts with
  | [] => Some p
  | t :: rest =>
      match parseToken p t with
      | Some p' => parseTokens p' rest
      | None => None
      end
  end.

(** [JSON.parse(text)]: [None] stands for the SyntaxError. The text is one
    value, with nothing open and nothing after it. *)
Definition JSON_parse (text : jsstring) : option json :=
  match tokenize text 0 with
  | None => None
  | Some ts =>
      match parseTokens (ExpectValue []) ts with
      | Some (AfterValue v []) => Some v
      | _ => None
      end
  end.

(** ** Printer *)

Definition hexDigit (n : N) : code_unit :=
  if (n <? 10)%N then (48 + n)%N else (87 + n)%N.

Definition unicodeEscape (c : code_unit) : jsstring :=
  [92; 117; hexDigit (c / 4096); hexDigit ((c / 256) mod 16);
   hexDigit ((c / 16) mod 16); hexDigit (c mod 16)]%N.

Definition isHighSurrogate (c : code_unit) : bool := ((55296 <=? c) && (c <=? 56319))%N.
Definition isLowSurrogate (c : code_unit) : bool := ((56320 <=? c) && (c <=? 57343))%N.

(** QuoteJSONString without the surrounding quotes. *)
Fixpoint quoteUnits (s : jsstring) : jsstring :=
  match s with
  | [] => []
  | c :: r =>
      if (c =? 8)%N then js "\b" ++ quoteUnits r
      else if (c =? 9)%N then js "\t" ++ quoteUnits r
      else if (c =? 10)%N then js "\n" ++ quoteUnits r
      else if (c =? 12)%N then js "\f" ++ quoteUnits r
      else if (c =? 13)%N then js "\r" ++ quoteUnits r
      else if (c =? 34)%N then [92; 34]%N ++ quoteUnits r
      else if (c =? 92)%N then [92; 92]%N ++ quoteUnits r
      else if (c <? 32)%N then unicodeEscape c ++ quoteUnits r
      else if isHighSurrogate c then
        match r with
        | d :: r' =>
            if isLowSurrogate d then c :: d :: quoteUnits r'
            else unicodeEscape c ++ quoteUnits r
        | [] => unicodeEscape c
        end
      else if isLowSurrogate c then unicodeEscape c ++ quoteUnits r
      else c :: quoteUnits r
  end.

Definition quote (s : jsstring) : jsstring := 34%N :: quoteUnits s ++ [34%N].

Fixpoint joinWith (sep : jsstring) (l : list jsstring) : jsstring :=
  match l with
  | [] => []
  | [x] => x
  | x :: r => x ++ sep ++ joinWith sep r
  end.

(** [JSON.stringify(v)] of a value made of JSON data. *)
Fixpoint JSON_stringify (v : json) : jsstring :=
  match v with
  | JNull => js "null"
  | JBool true => js "true"
  | JBool false => js "false"
  | JNum l => l
  | JStr s => quote s
  | JArr l => js "[" ++ joinWith (js ",") (map JSON_stringify l) ++ js "]"
  | JObj m =>
      js "{" ++
      joinWith (js ",")
        (map (fun kv : jsstring * json => quote (fst kv) ++ js ":" ++ JSON_stringify (snd kv)) m)
      ++ js "}"
  end.

(** ** Conversions of JSON data *)

(** ToString: what [+] with a string and [JSON.parse] do to an operand. *)
Fixpoint ToString (v : json) : jsstring :=
  match v with
  | JNull => js "null"
  | JBool true => js "true"
  | JBool false => js "false"
  | JNum l => l
  | JStr s => s
  | JArr l =>
      joinWith (js ",")
        (map (fun x => match x with JNull => [] | _ => ToString x end) l)
  | JObj _ => js "[object Object]"
  end.

(** The digits of the mantissa of a number literal are all zero. *)
Fixpoint zeroMantissa (l : jsstring) : bool :=
  match l with
  | [] => true
  | c :: r =>
      if ((c =? 101) || (c =? 69))%N then true
      else if isDigit c && negb (c =? 48)%N then false
      else zeroMantissa r
  end.

(** ToBoolean of a property value; [None] is [undefined]. *)
Definition truthy (o : option json) : bool :=
  match o with
  | None => false
  | Some JNull => false
  | Some (JBool b) => b
  | Some (JNum l) => negb (zeroMantissa l)
  | Some (JStr s) => nonEmpty s
  | Some (JArr _) => true
  | Some (JObj _) => true
  end.

(** [v.k] for a value that is not null: only objects made by [JSON.parse]
    own the properties the handlers read. *)
Definition get (k : string) (v : json) : option json :=
  match v with
  | JObj m => lookup (js k) m
  | _ => None
  end.

(** [o?.k]: undefined when [o] is undefined or null. *)
Definition getOpt (k : string) (o : option json) : option json :=
  match o with
  | Some v => get k v
  | None => None
  end.

(** [o?.[0]] *)
Definition index0 (o : option json) : option json :=
  match o with
  | Some (JArr (x :: _)) => Some x
  | Some (JObj m) => lookup (js "0") m
  | Some (JStr (c :: _)) => Some (JStr [c])
  | _ => None
  end.

(* ================================================================== *)
(** * Backend selection (src/proxy-server.ts, [createProxyServer]) *)
(* ================================================================== *)

(** [modelMap?: { opus?, sonnet?, haiku?, subagent? }] *)
Record ModelMap : Type := {
  opus : option jsstring;
  sonnet : option jsstring;
  haiku : option jsstring;
  subagent : option jsstring
}.

(** The arguments of [createProxyServer] that routing reads. *)
Record ProxyConfig : Type := {
  model : option jsstring;
  monitorMode : bool;
  geminiApiKey : option jsstring;
  useGeminiNative : bool;
  modelMap : option ModelMap
}.

(** The three handler classes; an aggregator instance is made for one target model. *)
Inductive APIHandler : Type :=
| NativeHandler
| GeminiNativeHandler
| OpenRouterHandler (targetModel : jsstring).

(** [handlers]: the map from target model id to handler instance, in insertion order. *)
Definition HandlerMap := list (jsstring * APIHandler).

Fixpoint handlersGet (k : jsstring) (m : HandlerMap) : option APIHandler :=
  match m with
  | [] => None
  | (k', h) :: m' => if jsstring_eqb k k' then Some h else handlersGet k m'
  end.

(** [getOpenRouterHandler(targetModel)]: get, or create and remember. *)
Definition getOpenRouterHandler (targetModel : jsstring) (handlers : HandlerMap)
  : APIHandler * HandlerMap :=
  match handlersGet targetModel handlers with
  | Some h => (h, handlers)
  | None => (OpenRouterHandler targetModel, handlers ++ [(targetModel, OpenRouterHandler targetModel)])
  end.

(** Lines 43-47: handlers of the mapped models are made when the server is. *)
Definition warmUp (o : option jsstring) (handlers : HandlerMap) : HandlerMap :=
  match o with
  | Some m => if nonEmpty m then snd (getOpenRouterHandler m handlers) else handlers
  | None => handlers
  end.

Definition initialHandlers (cfg : ProxyConfig) : HandlerMap :=
  let h0 := warmUp (model cfg) [] in
  match modelMap cfg with
  | Some mm => warmUp (subagent mm) (warmUp (haiku mm) (warmUp (sonnet mm) (warmUp (opus mm) h0)))
  | None => h0
  end.

(** [geminiNativeHandler] is defined when [geminiApiKey] is truthy (lines 26-30). *)
Definition geminiNativeHandler (cfg : ProxyConfig) : option APIHandler :=
  if truthyStr (geminiApiKey cfg) then Some GeminiNativeHandler else None.

(** [a || b] on an optional string and a string. *)
Definition orElse (o : option jsstring) (d : jsstring) : jsstring :=
  match o with
  | Some s => if nonEmpty s then s else d
  | None => d
  end.

(** [b && o] as a condition that is then assigned: the string [o] when [b]
    holds and [o] is truthy. *)
Definition andAlso (b : bool) (o : option jsstring) : option jsstring :=
  match o with
  | Some s => if b && nonEmpty s then Some s else None
  | None => None
  end.

Section Router.

(** [String.prototype.toLowerCase], taken as given. *)
Variable toLowerCase : jsstring -> jsstring.

(** Step 2 of [getHandlerForRequest] (lines 56-67): the working target id.
    Each test [req.includes(tier) && modelMap.tier] yields the override when it
    passes. *)
Definition resolveTarget (cfg : ProxyConfig) (requestedModel : jsstring) : jsstring :=
  let target := orElse (model cfg) requestedModel in
  let req := toLowerCase requestedModel in
  match modelMap cfg with
  | Some mm =>
      match andAlso (includes (js "opus") req) (opus mm) with
      | Some override => override
      | None =>
          match andAlso (includes (js "sonnet") req) (sonnet mm) with
          | Some override => override
          | None =>
              match andAlso (includes (js "haiku") req) (haiku mm) with
              | Some override => override
              | None => target
              end
          end
      end
  | None => target
  end.

(** [getHandlerForRequest(requestedModel)] (lines 49-94), with the handler
    map it may extend. *)
Definition getHandlerForRequest (cfg : ProxyConfig) (handlers : HandlerMap)
    (requestedModel : jsstring) : APIHandler * HandlerMap :=
  if monitorMode cfg then (NativeHandler, handlers)
  else
    let target := resolveTarget cfg requestedModel in
    match (if useGeminiNative cfg then geminiNativeHandler cfg else None) with
    | Some h => (h, handlers)
    | None =>
        let isGeminiModel := includes (js "gemini") target || includes (js "google/") target in
        match (if isGeminiModel then geminiNativeHandler cfg else None) with
        | Some h => (h, handlers)
        | None =>
            let isNativeAnthropic := negb (includes (js "/") target) in
            if isNativeAnthropic then (NativeHandler, handlers)
            else getOpenRouterHandler target handlers
        end
    end.

(** The resolution rule as the specification words it: the tiers are tried
    in the order opus, sonnet, haiku; a tier applies when its name occurs in
    the lower-cased requested id and an override is configured for it; the
    first tier that applies gives the target; without one the target is the
    global default when configured, else the requested id. *)
Definition tiers (mm : ModelMap) : list (jsstring * option jsstring) :=
  [(js "opus", opus mm); (js "sonnet", sonnet mm); (js "haiku", haiku mm)].

Definition tierApplies (req : jsstring) (t : jsstring * option jsstring) : bool :=
  includes (fst t) req && truthyStr (snd t).

Definition spec_resolveTarget (cfg : ProxyConfig) (requestedModel : jsstring) : jsstring :=
  let fallback :=
    match model cfg with
    | Some d => if nonEmpty d then d else requestedModel
    | None => requestedModel
    end in
  let candidates := match modelMap cfg with Some mm => tiers mm | None => [] end in
  match find (tierApplies (toLowerCase requestedModel)) candidates with
  | Some (_, Some override) => override
  | _ => fallback
  end.

End Router.

(** Lower-casing of the ASCII letters, for the examples. *)
Definition asciiToLowerCase (s : jsstring) : jsstring :=
  map (fun c => if ((65 <=? c) && (c <=? 90))%N then (c + 32)%N else c) s.

(* ================================================================== *)
(** * Results of a handler *)
(* ================================================================== *)

(** [ToolCall]: [id] and [name] are whatever truthy value the backend sent. *)
Record ToolCall : Type := {
  tc_id : json;
  tc_name : json;
  tc_args : json
}.

Record GenerationResult : Type := {
  fullContent : jsstring;
  toolCalls : list ToolCall;
  reasoningDetails : list json
}.

(** How a block of statements ends. *)
Inductive completion : Type := Normal | Thrown.

(** One run of [handler.generate]: its calls of [onChunk], oldest first, and
    the result it resolves to or the message of the error it rejects with. *)
Inductive Outcome : Type :=
| Returned (result : GenerationResult)
| Threw (message : jsstring).

Record HandlerRun : Type := {
  chunks : list jsstring;
  outcome : Outcome
}.

(* ================================================================== *)
(** * The aggregator stream (src/handlers/openrouter-handler.ts,
      [handleStreamingResponse]) *)
(* ================================================================== *)

(** What the handler takes from outside: the middleware pipeline with its
    per-stream [streamMetadata] store, and the identifier made by
    [Date.now()] and [generateUniqueId()] for a tool call without id (the
    argument counts the identifiers made so far in the stream). *)
Class Collaborators : Type := {
  Metadata : Type;
  newMetadata : Metadata;
  afterStreamChunk : json -> json -> Metadata -> Metadata * completion;
  collectedReasoningDetails : Metadata -> list json;
  generatedToolId : nat -> jsstring
}.

(** The variables of [handleStreamingResponse]. [currentToolCall] refers to
    an element of [toolCalls] (the same object in the source), by position. *)
Record StreamState `{Collaborators} : Type := {
  s_fullContent : jsstring;
  s_toolCalls : list ToolCall;
  s_currentToolCall : option nat;
  s_onChunk : list jsstring;
  s_streamMetadata : Metadata;
  s_generatedIds : nat
}.

Section OpenRouter.

Context `{Collaborators}.

Definition initialState : StreamState := {|
  s_fullContent := [];
  s_toolCalls := [];
  s_currentToolCall := None;
  s_onChunk := [];
  s_streamMetadata := newMetadata;
  s_generatedIds := 0
|}.

(** [currentToolCall.args = a], seen through [toolCalls]. *)
Fixpoint setArgs (i : nat) (a : json) (l : list ToolCall) : list ToolCall :=
  match l, i with
  | [], _ => []
  | t :: r, O => {| tc_id := tc_id t; tc_name := tc_name t; tc_args := a |} :: r
  | t :: r, S j => t :: setArgs j a r
  end.

(** [v || "{}"] *)
Definition orEmptyObject (o : option json) : json :=
  if truthy o then match o with Some v => v | None => JStr (js "{}") end
  else JStr (js "{}").

(** Lines 206-212: a fragment that names a function starts a tool call. The
    identifier is made before the arguments are parsed. *)
Definition startToolCall (st : StreamState) (tc : json) (fname : json)
  : StreamState * completion :=
  let (id, ids) :=
    if truthy (get "id" tc)
    then (match get "id" tc with Some v => v | None => JNull end, s_generatedIds st)
    else (JStr (js "tool_" ++ generatedToolId (s_generatedIds st)), S (s_generatedIds st)) in
  let argumentsText := ToString (orEmptyObject (getOpt "arguments" (get "function" tc))) in
  match JSON_parse argumentsText with
  | None =>
      ({| s_fullContent := s_fullContent st;
          s_toolCalls := s_toolCalls st;
          s_currentToolCall := s_currentToolCall st;
          s_onChunk := s_onChunk st;
          s_streamMetadata := s_streamMetadata st;
          s_generatedIds := ids |}, Thrown)
  | Some a =>
      ({| s_fullContent := s_fullContent st;
          s_toolCalls := s_toolCalls st ++ [{| tc_id := id; tc_name := fname; tc_args := a |}];
          s_currentToolCall := Some (length (s_toolCalls st));
          s_onChunk := s_onChunk st;
          s_streamMetadata := s_streamMetadata st;
          s_generatedIds := ids |}, Normal)
  end.

(** Lines 213-219: a later fragment is spliced before the closing brace of
    the current call's printed arguments. *)
Definition spliceArguments (existing : json) (fragment : json) : jsstring :=
  slice_drop_last (JSON_stringify existing) ++ ToString fragment ++ js "}".

Definition appendToolCall (st : StreamState) (i : nat) (fragment : json)
  : StreamState * completion :=
  match nth_error (s_toolCalls st) i with
  | None => (st, Thrown)
  | Some current =>
      match JSON_parse (spliceArguments (tc_args current) fragment) with
      | None => (st, Thrown)
      | Some a =>
          ({| s_fullContent := s_fullContent st;
              s_toolCalls := setArgs i a (s_toolCalls st);
              s_currentToolCall := s_currentToolCall st;
              s_onChunk := s_onChunk st;
              s_streamMetadata := s_streamMetadata st;
              s_generatedIds := s_generatedIds st |}, Normal)
      end
  end.

(** The body of [for (const tc of delta.tool_calls)] (lines 203-220).
    Reading [tc.function] of [null] throws. *)
Definition toolCallFragment (st : StreamState) (tc : json) : StreamState * completion :=
  match tc with
  | JNull => (st, Thrown)
  | _ =>
      let fname := getOpt "name" (get "function" tc) in
      if truthy fname then
        startToolCall st tc (match fname with Some v => v | None => JNull end)
      else
        match s_currentToolCall st with
        | Some i =>
            let fragment := getOpt "arguments" (get "function" tc) in
            if truthy fragment
            then appendToolCall st i (match fragment with Some v => v | None => JNull end)
            else (st, Normal)
        | None => (st, Normal)
        end
  end.

(** The loop over the fragments stops at the first one that throws. *)
Fixpoint toolCallFragments (st : StreamState) (tcs : list json) : StreamState * completion :=
  match tcs with
  | [] => (st, Normal)
  | tc :: rest =>
      match toolCallFragment st tc with
      | (st', Normal) => toolCallFragments st' rest
      | (st', Thrown) => (st', Thrown)
      end
  end.

(** [if (delta.tool_calls) for (const tc of delta.tool_calls) ...]: an array
    is walked through, a string yields one-character strings that are no
    fragments, any other truthy value is not iterable. *)
Definition toolCallsOf (st : StreamState) (delta : json) : StreamState * completion :=
  if truthy (get "tool_calls" delta) then
    match get "tool_calls" delta with
    | Some (JArr tcs) => toolCallFragments st tcs
    | Some (JStr _) => (st, Normal)
    | _ => (st, Thrown)
    end
  else (st, Normal).

(** Lines 196-200: [const txt = delta.content || ""; if (txt) { ... }]. The
    text goes to [onChunk] and to [fullContent] as a string. *)
Definition textOf (st : StreamState) (delta : json) : StreamState :=
  if truthy (get "content" delta) then
    let txt := match get "content" delta with Some v => ToString v | None => [] end in
    {| s_fullContent := s_fullContent st ++ txt;
       s_toolCalls := s_toolCalls st;
       s_currentToolCall := s_currentToolCall st;
       s_onChunk := s_onChunk st ++ [txt];
       s_streamMetadata := s_streamMetadata st;
       s_generatedIds := s_generatedIds st |}
  else st.

(** Lines 185-222, inside the [try]: [chunk.choices] of [null] throws;
    the middleware runs first and may throw. *)
Definition processChunk (st : StreamState) (chunk : json) : StreamState * completion :=
  match chunk with
  | JNull => (st, Thrown)
  | _ =>
      let delta := getOpt "delta" (index0 (get "choices" chunk)) in
      if truthy delta then
        match delta with
        | Some d =>
            let (meta, c) := afterStreamChunk chunk d (s_streamMetadata st) in
            let st1 :=
              {| s_fullContent := s_fullContent st;
                 s_toolCalls := s_toolCalls st;
                 s_currentToolCall := s_currentToolCall st;
                 s_onChunk := s_onChunk st;
                 s_streamMetadata := meta;
                 s_generatedIds := s_generatedIds st |} in
            match c with
            | Thrown => (st1, Thrown)
            | Normal => toolCallsOf (textOf st1 d) d
            end
        | None => (st, Normal)
        end
      else (st, Normal)
  end.

(** Lines 183-225: the [try] around one data payload; the [catch] logs and
    goes on with the state reached. *)
Definition processData (st : StreamState) (dataStr : jsstring) : StreamState :=
  match JSON_parse dataStr with
  | None => st
  | Some chunk => fst (processChunk st chunk)
  end.

(** Lines 179-226: the loop over the lines of one read; ["[DONE]"] leaves it. *)
Fixpoint processLines (st : StreamState) (lines : list jsstring) : StreamState :=
  match lines with
  | [] => st
  | line :: rest =>
      if negb (nonEmpty (trim line)) || negb (startsWith (js "data: ") line)
      then processLines st rest
      else
        let dataStr := slice_from 6 line in
        if jsstring_eqb dataStr (js "[DONE]") then st
        else processLines (processData st dataStr) rest
  end.

(** Lines 172-227: every read extends the buffer; its complete lines are
    processed and the last, unfinished one is kept. *)
Fixpoint readLoop (st : StreamState) (buffer : jsstring) (reads : list jsstring)
  : StreamState :=
  match reads with
  | [] => st
  | value :: rest =>
      let lines := split 10%N (buffer ++ value) in
      readLoop (processLines st (removelast lines)) (last lines []) rest
  end.

(** The body of a response: the decoded text of each read, and the error
    message when the transport fails after them instead of ending. *)
Record ResponseBody : Type := {
  reads : list jsstring;
  failure : option jsstring
}.

(** [handleStreamingResponse(response, adapter, target, onChunk)]. An error
    of the reader is thrown again (lines 235-238); otherwise the result is
    returned (lines 241-245). *)
Definition handleStreamingResponse (body : ResponseBody) : HandlerRun :=
  let st := readLoop initialState [] (reads body) in
  {| chunks := s_onChunk st;
     outcome :=
       match failure body with
       | Some message => Threw message
       | None =>
           Returned {| fullContent := s_fullContent st;
                       toolCalls := s_toolCalls st;
                       reasoningDetails := collectedReasoningDetails (s_streamMetadata st) |}
       end |}.

End OpenRouter.

(* ================================================================== *)
(** * The canonical stream (src/proxy-server.ts, [POST /v1/messages]) *)
(* ================================================================== *)

(** The frames the stream enqueues, by the fields that vary. [MessageStart]
    carries the time in the message id and the requested model. *)
Inductive Frame : Type :=
| MessageStart (idTime : N) (requestedModel : jsstring)
| ContentBlockStartText (index : N)
| ContentBlockDelta (index : N) (text : jsstring)
| ContentBlockStop (index : N)
| ContentBlockStartToolUse (index : N) (id name input : json)
| MessageDelta (stop_reason : jsstring) (output_tokens : N)
| MessageStop
| Terminator
| ServerError (message : jsstring).

(** What is done to the stream controller. *)
Inductive Action : Type :=
| Enqueue (frame : Frame)
| Close.

(** The text of a frame, as enqueued. *)
Definition sse (event : string) (data : json) : jsstring :=
  js "event: " ++ js event ++ [10%N] ++ js "data: " ++ JSON_stringify data ++ [10%N; 10%N].

Definition num (n : N) : json := JNum (decimal n).
Definition str (s : string) : json := JStr (js s).

Definition render (f : Frame) : jsstring :=
  match f with
  | MessageStart t m =>
      sse "message_start"
        (JObj [(js "type", str "message_start");
               (js "message",
                JObj [(js "id", JStr (js "msg_" ++ decimal t));
                      (js "type", str "message");
                      (js "role", str "assistant");
                      (js "content", JArr []);
                      (js "model", JStr m);
                      (js "stop_reason", JNull);
                      (js "stop_sequence", JNull);
                      (js "usage", JObj [(js "input_tokens", num 0); (js "output_tokens", num 0)])])])
  | ContentBlockStartText i =>
      sse "content_block_start"
        (JObj [(js "type", str "content_block_start"); (js "index", num i);
               (js "content_block", JObj [(js "type", str "text"); (js "text", JStr [])])])
  | ContentBlockDelta i t =>
      sse "content_block_delta"
        (JObj [(js "type", str "content_block_delta"); (js "index", num i);
               (js "delta", JObj [(js "type", str "text_delta"); (js "text", JStr t)])])
  | ContentBlockStop i =>
      sse "content_block_stop"
        (JObj [(js "type", str "content_block_stop"); (js "index", num i)])
  | ContentBlockStartToolUse i id name input =>
      sse "content_block_start"
        (JObj [(js "type", str "content_block_start"); (js "index", num i);
               (js "content_block",
                JObj [(js "type", str "tool_use"); (js "id", id); (js "name", name);
                      (js "input", input)])])
  | MessageDelta r n =>
      sse "message_delta"
        (JObj [(js "type", str "message_delta");
               (js "delta", JObj [(js "stop_reason", JStr r); (js "stop_sequence", JNull)]);
               (js "usage", JObj [(js "output_tokens", num n)])])
  | MessageStop =>
      sse "message_stop" (JObj [(js "type", str "message_stop")])
  | Terminator => js "data: [DONE]" ++ [10%N; 10%N]
  | ServerError m =>
      sse "error" (JObj [(js "type", str "server_error"); (js "message", JStr m)])
  end.

(** The variables of one request (lines 126 and 179-182) and the controller
    of its stream, oldest action first. *)
Record RequestState : Type := {
  currentToolUseIndex : N;
  r_fullContent : jsstring;
  streamedContent : jsstring;
  isFirstTextChunk : bool;
  controller : list Action
}.

Definition textBlockIndex : N := 0.

Definition newRequest : RequestState := {|
  currentToolUseIndex := 0;
  r_fullContent := [];
  streamedContent := [];
  isFirstTextChunk := true;
  controller := []
|}.

Definition enqueue (fs : list Frame) (st : RequestState) : RequestState := {|
  currentToolUseIndex := currentToolUseIndex st;
  r_fullContent := r_fullContent st;
  streamedContent := streamedContent st;
  isFirstTextChunk := isFirstTextChunk st;
  controller := controller st ++ map Enqueue fs
|}.

Section Stream.

(** [Date.now()] when the first chunk arrives, and [body.model]. *)
Variable now : N.
Variable bodyModel : jsstring.

(** The callback handed to [handler.generate] (lines 190-199). *)
Definition onChunk (st : RequestState) (chunk : jsstring) : RequestState :=
  let opening :=
    if isFirstTextChunk st
    then [MessageStart now bodyModel; ContentBlockStartText textBlockIndex]
    else [] in
  {| currentToolUseIndex := currentToolUseIndex st;
     r_fullContent := r_fullContent st ++ chunk;
     streamedContent := streamedContent st ++ chunk;
     isFirstTextChunk := false;
     controller :=
       controller st ++ map Enqueue (opening ++ [ContentBlockDelta textBlockIndex chunk]) |}.

(** Lines 209-213: one block per tool call, numbered by [++currentToolUseIndex]. *)
Fixpoint toolUseBlocks (st : RequestState) (tcs : list ToolCall) : RequestState :=
  match tcs with
  | [] => st
  | tc :: rest =>
      let toolUseBlockIndex := (currentToolUseIndex st + 1)%N in
      toolUseBlocks
        {| currentToolUseIndex := toolUseBlockIndex;
           r_fullContent := r_fullContent st;
           streamedContent := streamedContent st;
           isFirstTextChunk := isFirstTextChunk st;
           controller :=
             controller st ++
             [Enqueue (ContentBlockStartToolUse toolUseBlockIndex (tc_id tc) (tc_name tc) (tc_args tc));
              Enqueue (ContentBlockStop toolUseBlockIndex)] |}
        rest
  end.

(** [Math.ceil(n / 4)] *)
Definition ceilDiv4 (n : N) : N := ((n + 3) / 4)%N.

(** Line 222: the estimate of the output tokens. *)
Definition outputTokens (st : RequestState) : N :=
  let n := N.of_nat (length (streamedContent st)) in
  if (0 <? n)%N then ceilDiv4 n else 1%N.

(** Lines 204-226: after [generate] has resolved. *)
Definition afterGenerate (st : RequestState) (result : GenerationResult) : RequestState :=
  let closeText (s : RequestState) :=
    if negb (isFirstTextChunk s) then enqueue [ContentBlockStop textBlockIndex] s else s in
  let st1 :=
    match toolCalls result with
    | _ :: _ => toolUseBlocks (closeText st) (toolCalls result)
    | [] => closeText st
    end in
  let st2 :=
    enqueue [MessageDelta (js "end_turn") (outputTokens st1); MessageStop; Terminator] st1 in
  {| currentToolUseIndex := currentToolUseIndex st2;
     r_fullContent := r_fullContent st2;
     streamedContent := streamedContent st2;
     isFirstTextChunk := isFirstTextChunk st2;
     controller := controller st2 ++ [Close] |}.

(** Lines 227-232: an error of [generate] becomes one error frame, then the
    stream is closed. *)
Definition onStreamError (st : RequestState) (errorMessage : jsstring) : RequestState :=
  let st1 := enqueue [ServerError (js "Stream error: " ++ errorMessage)] st in
  {| currentToolUseIndex := currentToolUseIndex st1;
     r_fullContent := r_fullContent st1;
     streamedContent := streamedContent st1;
     isFirstTextChunk := isFirstTextChunk st1;
     controller := controller st1 ++ [Close] |}.

(** [start(controller)] (lines 185-233) for one run of the handler. *)
Definition start (run : HandlerRun) : RequestState :=
  let st := fold_left onChunk (chunks run) newRequest in
  match outcome run with
  | Returned result => afterGenerate st result
  | Threw message => onStreamError st message
  end.

(** The actions on the controller, and the frames among them. *)
Definition actions (run : HandlerRun) : list Action := controller (start run).

End Stream.

Fixpoint frames (acts : list Action) : list Frame :=
  match acts with
  | [] => []
  | Enqueue f :: r => f :: frames r
  | Close :: r => frames r
  end.

(** The body of the response: the text of the frames, in order. *)
Definition responseText (acts : list Action) : list jsstring := map render (frames acts).

(** The content block a frame belongs to. *)
Definition blockIndex (f : Frame) : option N :=
  match f with
  | ContentBlockStartText i => Some i
  | ContentBlockDelta i _ => Some i
  | ContentBlockStop i => Some i
  | ContentBlockStartToolUse i _ _ _ => Some i
  | _ => None
  end.

(* ================================================================== *)
(** * Messages (src/types.ts) and their collection from the request
      (src/proxy-server.ts, lines 131-167) *)
(* ================================================================== *)

Inductive Role : Type := RoleUser | RoleAssistant | RoleSystem | RoleTool.

Inductive BlockType : Type := BlockText | BlockImageUrl | BlockToolUse | BlockToolResult.

(** [GenericContentBlock]; [b_image_url] is the [url] of [image_url]. *)
Record GenericContentBlock : Type := {
  b_type : BlockType;
  b_text : option jsstring;
  b_image_url : option jsstring;
  b_id : option jsstring;
  b_name : option jsstring;
  b_input : option json;
  b_tool_use_id : option jsstring;
  b_content : option json
}.

(** [string | GenericContentBlock[]] *)
Inductive Content : Type :=
| Text (s : jsstring)
| Blocks (blocks : list GenericContentBlock).

Record Message : Type := {
  role : Role;
  content : Content;
  tool_calls : option (list ToolCall);
  tool_call_id : option jsstring
}.

(** A message of the request body: its role is any string. *)
Record BodyMessage : Type := {
  bm_role : jsstring;
  bm_content : Content;
  bm_tool_calls : option (list ToolCall);
  bm_tool_call_id : option jsstring
}.

Record RequestBody : Type := {
  body_model : jsstring;
  body_system : option jsstring;
  body_messages : option (list BodyMessage)
}.

(** The text of a system message given as blocks:
    [content.map(block => block.text).join("\n")]. *)
Definition systemText (c : Content) : jsstring :=
  match c with
  | Text s => s
  | Blocks bs =>
      joinWith [10%N] (map (fun b => match b_text b with Some t => t | None => [] end) bs)
  end.

(** The loop of lines 139-162: the system text found so far and the messages
    pushed so far. *)
Fixpoint collectMessages (msgs : list BodyMessage) (systemMessageContent : option jsstring)
    (messages : list Message) : option jsstring * list Message :=
  match msgs with
  | [] => (systemMessageContent, messages)
  | msg :: rest =>
      if jsstring_eqb (bm_role msg) (js "system") then
        if truthyStr systemMessageContent
        then collectMessages rest systemMessageContent messages
        else collectMessages rest (Some (systemText (bm_content msg))) messages
      else if jsstring_eqb (bm_role msg) (js "user") then
        collectMessages rest systemMessageContent
          (messages ++ [{| role := RoleUser; content := bm_content msg;
                           tool_calls := None; tool_call_id := None |}])
      else if jsstring_eqb (bm_role msg) (js "assistant") then
        collectMessages rest systemMessageContent
          (messages ++ [{| role := RoleAssistant; content := bm_content msg;
                           tool_calls := match bm_content msg with
                                         | Text _ => None
                                         | Blocks _ => bm_tool_calls msg
                                         end;
                           tool_call_id := None |}])
      else if jsstring_eqb (bm_role msg) (js "tool") then
        collectMessages rest systemMessageContent
          (messages ++ [{| role := RoleTool; content := bm_content msg;
                           tool_calls := None; tool_call_id := bm_tool_call_id msg |}])
      else collectMessages rest systemMessageContent messages
  end.

(** Lines 131-167: the messages handed to the handler; the system text,
    from [body.system] first, leads them as one message. *)
Definition requestMessages (body : RequestBody) : list Message :=
  let initial := if truthyStr (body_system body) then body_system body else None in
  let (systemMessageContent, messages) :=
    match body_messages body with
    | Some msgs => collectMessages msgs initial []
    | None => (initial, [])
    end in
  match systemMessageContent with
  | Some s =>
      if nonEmpty s
      then {| role := RoleSystem; content := Text s; tool_calls := None; tool_call_id := None |}
           :: messages
      else messages
  | None => messages
  end.

(* ================================================================== *)
(** * The native chat request (src/handlers/gemini-native-handler.ts,
      [generate], lines 25-127) *)
(* ================================================================== *)

Inductive GeminiRole : Type := GeminiUser | GeminiModel | GeminiFunction.

(** An element of [geminiMessages]. A part is the object the source builds;
    a property whose value is undefined is left out of it. *)
Record GeminiMessage : Type := {
  g_role : option GeminiRole;
  g_parts : list json
}.

(** Lines 26-29. *)
Definition geminiRole (r : Role) : option GeminiRole :=
  match r with
  | RoleUser => Some GeminiUser
  | RoleAssistant => Some GeminiModel
  | RoleTool => Some GeminiFunction
  | RoleSystem => None
  end.

Definition member (k : string) (o : option json) : list (jsstring * json) :=
  match o with Some v => [(js k, v)] | None => [] end.

Definition firstTruthy (a b : option jsstring) : option jsstring :=
  if truthyStr a then a else b.

(** Lines 36-66: the part made from one block, if any. *)
Definition blockPart (msg : Message) (block : GenericContentBlock) : list json :=
  match b_type block with
  | BlockText =>
      match b_text block with
      | Some t => if nonEmpty t then [JObj [(js "text", JStr t)]] else []
      | None => []
      end
  | BlockImageUrl =>
      match b_image_url block with
      | Some url =>
          [JObj [(js "image",
                  JObj [(js "inlineData",
                         JObj ((js "mimeType", str "image/png")
                               :: member "data" (option_map JStr (nth_error (split 44%N url) 1))))])]]
      | None => []
      end
  | BlockToolUse =>
      if truthyStr (b_name block) && truthy (b_input block) then
        [JObj [(js "functionCall",
                JObj (member "name" (option_map JStr (b_name block))
                      ++ member "args" (b_input block)))]]
      else []
  | BlockToolResult =>
      if truthyStr (tool_call_id msg) && truthy (b_content block) then
        let n := option_map JStr (firstTruthy (b_id block) (b_tool_use_id block)) in
        [JObj [(js "functionResponse",
                JObj (member "name" n
                      ++ [(js "response", JObj (member "name" n ++ member "content" (b_content block)))]))]]
      else []
  end.

(** Lines 72-81: the tool calls of an assistant message. *)
Definition toolCallParts (msg : Message) : list json :=
  match role msg, tool_calls msg with
  | RoleAssistant, Some tcs =>
      map (fun tc => JObj [(js "functionCall",
                            JObj [(js "name", tc_name tc); (js "args", tc_args tc)])]) tcs
  | _, _ => []
  end.

(** The callback of [messages.map] (lines 25-86). *)
Definition toGeminiMessage (msg : Message) : GeminiMessage :=
  let parts :=
    match content msg with
    | Text s => [JObj [(js "text", JStr s)]]
    | Blocks bs => flat_map (blockPart msg) bs
    end in
  {| g_role := geminiRole (role msg); g_parts := parts ++ toolCallParts msg |}.

Definition hasRole (m : GeminiMessage) : bool :=
  match g_role m with Some _ => true | None => false end.

(** Lines 25-87. *)
Definition geminiMessages (messages : list Message) : list GeminiMessage :=
  filter hasRole (map toGeminiMessage messages).

(** Line 97: [part.text || JSON.stringify(part)]. *)
Definition partText (part : json) : jsstring :=
  if truthy (get "text" part)
  then match get "text" part with Some v => ToString v | None => [] end
  else JSON_stringify part.

(** Lines 92-99: a last message of role user is taken off the history, and
    its parts, when it has some, give the text to send. *)
Definition takeLastUserMessage (gm : list GeminiMessage)
  : list GeminiMessage * option jsstring :=
  match rev gm with
  | lastMessage :: before =>
      match g_role lastMessage with
      | Some GeminiUser =>
          (rev before,
           match g_parts lastMessage with
           | [] => None
           | parts => Some (joinWith [] (map partText parts))
           end)
      | _ => (gm, None)
      end
  | [] => (gm, None)
  end.

(** What the handler sends: [chatParams.history] and the argument of
    [chat.sendMessageStream]. *)
Record GeminiRequest : Type := {
  history : list GeminiMessage;
  prompt : Content
}.

(** Lines 25-127; [None] is the TypeError of reading [content] of the last
    element of an empty list. *)
Definition geminiRequest (messages : list Message) : option GeminiRequest :=
  let (history, lastUserMessageContent) := takeLastUserMessage (geminiMessages messages) in
  if truthyStr lastUserMessageContent then
    match lastUserMessageContent with
    | Some s => Some {| history := history; prompt := Text s |}
    | None => None
    end
  else
    match rev messages with
    | lastOfAll :: _ => Some {| history := history; prompt := content lastOfAll |}
    | [] => None
    end.

(* ================================================================== *)
(** * Reference sequences for the statements *)
(* ================================================================== *)

(** A stream without middleware; generated identifiers are numbered. *)
Definition noMiddleware : Collaborators := {|
  Metadata := unit;
  newMetadata := tt;
  afterStreamChunk := fun _ _ m => (m, Normal);
  collectedReasoningDetails := fun _ => [];
  generatedToolId := fun n => decimal (N.of_nat n)
|}.

(** The frames of the text block for the chunks [cs]: none without chunks,
    else the opening of the message and of block 0, one delta per chunk, and
    the stop of block 0. *)
Definition textFrames (now : N) (bodyModel : jsstring) (cs : list jsstring) : list Frame :=
  match cs with
  | [] => []
  | _ :: _ =>
      [MessageStart now bodyModel; ContentBlockStartText 0]
      ++ map (ContentBlockDelta 0) cs ++ [ContentBlockStop 0]
  end.

(** The frames of the tool calls [tcs] when [k] blocks were numbered before:
    for each call its start and, right after, its stop, at the next index. *)
Fixpoint toolUseFrames (k : N) (tcs : list ToolCall) : list Frame :=
  match tcs with
  | [] => []
  | tc :: rest =>
      [ContentBlockStartToolUse (k + 1) (tc_id tc) (tc_name tc) (tc_args tc);
       ContentBlockStop (k + 1)]
      ++ toolUseFrames (k + 1) rest
  end.

(** The estimate for [n] streamed code units. *)
Definition estimate (n : nat) : N :=
  if (0 <? N.of_nat n)%N then ceilDiv4 (N.of_nat n) else 1%N.

(** The frames that end a completed stream. *)
Definition closingFrames (streamed : nat) : list Frame :=
  [MessageDelta (js "end_turn") (estimate streamed); MessageStop; Terminator].

(** The indices of the tool-use blocks started, in order of emission. *)
Fixpoint toolUseIndices (fs : list Frame) : list N :=
  match fs with
  | [] => []
  | ContentBlockStartToolUse i _ _ _ :: r => i :: toolUseIndices r
  | _ :: r => toolUseIndices r
  end.

(** The tool calls a run hands to the stream: those of its result. *)
Definition returnedToolCalls (run : HandlerRun) : list ToolCall :=
  match outcome run with
  | Returned r => toolCalls r
  | Threw _ => []
  end.

(** The state of a stream is consistent: [currentToolCall] is the tool call
    pushed last, and [fullContent] is the text handed to [onChunk]. *)
Definition consistent `{Collaborators} (st : StreamState) : Prop :=
  match s_currentToolCall st with
  | None => s_toolCalls st = []
  | Some i => S i = length (s_toolCalls st)
  end
  /\ s_fullContent st = concat (s_onChunk st).

(** The text received so far ends a line: it is empty, or its last code
    unit is a line feed. *)
Definition endsLine (t : jsstring) : bool :=
  match rev t with
  | [] => true
  | c :: _ => N.eqb c 10
  end.


(** The end marker line. *)
Definition doneLine : jsstring := js "data: [DONE]" ++ [10%N].

(** A data line for a delta, as an OpenAI-compatible backend frames it. *)
Definition dataLine (delta : json) : jsstring :=
  js "data: " ++ JSON_stringify (JObj [(js "choices", JArr [JObj [(js "delta", delta)]])])
  ++ [10%N].

(** The delta of a tool-call fragment: the first one of a call names the
    function, the later ones carry argument text only. *)
Definition namedFragment (id name : string) (arguments : jsstring) : json :=
  JObj [(js "tool_calls",
         JArr [JObj [(js "index", num 0); (js "id", str id);
                     (js "function", JObj [(js "name", str name);
                                           (js "arguments", JStr arguments)])]])].

Definition argumentFragment (arguments : jsstring) : json :=
  JObj [(js "tool_calls",
         JArr [JObj [(js "index", num 0);
                     (js "function", JObj [(js "arguments", JStr arguments)])]])].

Definition textDelta (s : string) : json := JObj [(js "content", str s)].

(* ================================================================== *)
(** * The token count endpoint (src/proxy-server.ts, lines 104-123) *)
(* ================================================================== *)

(** What the endpoint answers: the request is passed on to the Anthropic
    endpoint with the body as it came (whose answer, or the error of the
    call, is then the response), or an estimate is returned, or the handler
    of the route caught an error (status 500). *)
Inductive CountTokensResponse : Type :=
| Forwarded (body : json)
| Estimated (input_tokens : N)
| CountTokensError.

Section CountTokens.

Variable toLowerCase : jsstring -> jsstring.

(** The route handler for a parsed body. [body.model] of [null] throws; a
    truthy model that is no string throws at [toLowerCase], which monitor
    mode returns before. *)
Definition countTokens (cfg : ProxyConfig) (handlers : HandlerMap) (body : json)
  : CountTokensResponse * HandlerMap :=
  match body with
  | JNull => (CountTokensError, handlers)
  | _ =>
      let reqModel :=
        if truthy (get "model" body) then get "model" body
        else Some (JStr (js "claude-3-opus-20240229")) in
      match reqModel with
      | Some (JStr requestedModel) =>
          let (handler, handlers') :=
            getHandlerForRequest toLowerCase cfg handlers requestedModel in
          match handler with
          | NativeHandler => (Forwarded body, handlers')
          | _ => (Estimated (ceilDiv4 (N.of_nat (length (JSON_stringify body)))), handlers')
          end
      | _ => if monitorMode cfg then (Forwarded body, handlers) else (CountTokensError, handlers)
      end
  end.

End CountTokens.

(* ================================================================== *)
(** * The global configuration (src/state.ts) *)
(* ================================================================== *)

Section State.

(** [ClaudishConfig]; the module only stores it. *)
Variable ClaudishConfig : Type.

(** [setConfig(config)] on the module variable [appConfig]. *)
Definition setConfig (appConfig : option ClaudishConfig) (config : ClaudishConfig)
  : option ClaudishConfig * completion :=
  match appConfig with
  | Some _ => (appConfig, Thrown)
  | None => (Some config, Normal)
  end.

(** [getConfig()]: [None] is the error of a configuration not yet set. *)
Definition getConfig (appConfig : option ClaudishConfig) : option ClaudishConfig :=
  match appConfig with
  | Some config => Some config
  | None => None
  end.

(** Calls of [setConfig] one after the other, whether they throw or not. *)
Definition setConfigs (appConfig : option ClaudishConfig) (configs : list ClaudishConfig)
  : option ClaudishConfig :=
  fold_left (fun s c => fst (setConfig s c)) configs appConfig.

End State.

(* ================================================================== *)
(** * The Ollama adapter (src/adapters/ollama-adapter.ts) *)
(* ================================================================== *)

(** [delete request.k] on the members of an object. *)
Fixpoint deleteMember (k : jsstring) (m : list (jsstring * json)) : list (jsstring * json) :=
  match m with
  | [] => []
  | (k', v) :: m' =>
      if jsstring_eqb k k' then deleteMember k m' else (k', v) :: deleteMember k m'
  end.

(** [prepareRequest(request, originalRequest)], on the members of [request]. *)
Definition prepareRequest (request : list (jsstring * json)) : list (jsstring * json) :=
  if truthy (lookup (js "thinking") request) || truthy (lookup (js "reasoning_effort") request)
  then deleteMember (js "reasoning_effort") (deleteMember (js "thinking") request)
  else request.

Record AdapterResult : Type := {
  cleanedText : jsstring;
  extractedToolCalls : list ToolCall;
  wasTransformed : bool
}.

(** [processTextContent(textContent, accumulatedText)] *)
Definition processTextContent (textContent accumulatedText : jsstring) : AdapterResult :=
  {| cleanedText := textContent; extractedToolCalls := []; wasTransformed := false |}.

(* ================================================================== *)
(** * The native chat response (src/handlers/gemini-native-handler.ts,
      [generate], lines 129-161) *)
(* ================================================================== *)

(** A chunk of [result.stream], by what the loop reads of it: [chunk.text()]
    and, for each candidate, the parts of its content when it has some; a
    part may carry a function call. *)
Record FunctionCall : Type := {
  fc_name : json;
  fc_args : json
}.

Record GeminiPart : Type := {
  p_functionCall : option FunctionCall
}.

Record GeminiCandidate : Type := {
  c_parts : option (list GeminiPart)
}.

Record GeminiChunk : Type := {
  chunk_text : jsstring;
  chunk_candidates : option (list GeminiCandidate)
}.

(** The stream: its chunks, and the error message when it fails after them. *)
Record GeminiResponse : Type := {
  g_chunks : list GeminiChunk;
  g_failure : option jsstring
}.

(** The variables of the loop, with the calls of [onChunk] and the number of
    identifiers made. *)
Record GeminiState : Type := {
  gs_fullContent : jsstring;
  gs_toolCalls : list ToolCall;
  gs_onChunk : list jsstring;
  gs_ids : nat
}.

Section GeminiStream.

(** [generateUniqueId()], by the number of identifiers made before. *)
Variable generateUniqueId : nat -> jsstring.

(** Lines 143-151: the parts of one candidate. *)
Fixpoint geminiParts (st : GeminiState) (parts : list GeminiPart) : GeminiState :=
  match parts with
  | [] => st
  | part :: rest =>
      match p_functionCall part with
      | Some fc =>
          geminiParts
            {| gs_fullContent := gs_fullContent st;
               gs_toolCalls :=
                 gs_toolCalls st
                 ++ [{| tc_id := JStr (generateUniqueId (gs_ids st));
                        tc_name := fc_name fc;
                        tc_args := fc_args fc |}];
               gs_onChunk := gs_onChunk st;
               gs_ids := S (gs_ids st) |}
            rest
      | None => geminiParts st rest
      end
  end.

(** Lines 141-153: the candidates of one chunk. *)
Fixpoint geminiCandidates (st : GeminiState) (candidates : list GeminiCandidate)
  : GeminiState :=
  match candidates with
  | [] => st
  | candidate :: rest =>
      match c_parts candidate with
      | Some parts => geminiCandidates (geminiParts st parts) rest
      | None => geminiCandidates st rest
      end
  end.

(** Lines 133-155: the body of the loop over the chunks. *)
Definition geminiChunk (st : GeminiState) (chunk : GeminiChunk) : GeminiState :=
  let st1 :=
    {| gs_fullContent := gs_fullContent st ++ chunk_text chunk;
       gs_toolCalls := gs_toolCalls st;
       gs_onChunk := gs_onChunk st ++ [chunk_text chunk];
       gs_ids := gs_ids st |} in
  match chunk_candidates chunk with
  | Some candidates => geminiCandidates st1 candidates
  | None => st1
  end.

(** Lines 129-161: the run of the handler over the stream of the response. *)
Definition geminiGenerate (response : GeminiResponse) : HandlerRun :=
  let st :=
    fold_left geminiChunk (g_chunks response)
      {| gs_fullContent := []; gs_toolCalls := []; gs_onChunk := []; gs_ids := 0 |} in
  {| chunks := gs_onChunk st;
     outcome :=
       match g_failure response with
       | Some message => Threw message
       | None =>
           Returned {| fullContent := gs_fullContent st;
                       toolCalls := gs_toolCalls st;
                       reasoningDetails := [] |}
       end |}.

End GeminiStream.

(* ================================================================== *)
(** * Reference notions for the further statements *)
(* ================================================================== *)

(** The handler map is well keyed: no key twice, and under each key the
    aggregator handler made for that key. *)
Definition wellKeyed (m : HandlerMap) : Prop :=
  NoDup (map fst m)
  /\ Forall (fun kv : jsstring * APIHandler => snd kv = OpenRouterHandler (fst kv)) m.

(** The model ids a configuration names: the default model and the overrides. *)
Definition configuredModels (cfg : ProxyConfig) : list (option jsstring) :=
  model cfg ::
  match modelMap cfg with
  | Some mm => [opus mm; sonnet mm; haiku mm; subagent mm]
  | None => []
  end.

(** The texts of the deltas, the blocks started and the blocks stopped, in
    order of emission. *)
Fixpoint deltaTexts (fs : list Frame) : list jsstring :=
  match fs with
  | [] => []
  | ContentBlockDelta _ t :: r => t :: deltaTexts r
  | _ :: r => deltaTexts r
  end.

Fixpoint startedBlocks (fs : list Frame) : list N :=
  match fs with
  | [] => []
  | ContentBlockStartText i :: r => i :: startedBlocks r
  | ContentBlockStartToolUse i _ _ _ :: r => i :: startedBlocks r
  | _ :: r => startedBlocks r
  end.

Fixpoint stoppedBlocks (fs : list Frame) : list N :=
  match fs with
  | [] => []
  | ContentBlockStop i :: r => i :: stoppedBlocks r
  | _ :: r => stoppedBlocks r
  end.

(** The unfinished line kept in [buffer] after some reads. *)
Fixpoint bufferAfter (buffer : jsstring) (reads : list jsstring) : jsstring :=
  match reads with
  | [] => buffer
  | value :: rest => bufferAfter (last (split 10%N (buffer ++ value)) []) rest
  end.

(** What identifies a recorded tool call. *)
Definition callIdentity (tc : ToolCall) : json * json := (tc_id tc, tc_name tc).

(** The function calls of a chunk, in the order of its candidates and parts. *)
Definition chunkFunctionCalls (chunk : GeminiChunk) : list FunctionCall :=
  flat_map
    (fun candidate =>
       match c_parts candidate with
       | Some parts =>
           flat_map (fun part => match p_functionCall part with Some fc => [fc] | None => [] end)
             parts
       | None => []
       end)
    match chunk_candidates chunk with Some cs => cs | None => [] end.

(** The tool calls made of function calls when [n] identifiers were made before. *)
Fixpoint numberedCalls (generateUniqueId : nat -> jsstring) (n : nat) (fcs : list FunctionCall)
  : list ToolCall :=
  match fcs with
  | [] => []
  | fc :: rest =>
      {| tc_id := JStr (generateUniqueId n); tc_name := fc_name fc; tc_args := fc_args fc |}
      :: numberedCalls generateUniqueId (S n) rest
  end.

(** The collection of the messages in words: a message of role user,
    assistant or tool is kept, with its content (an assistant message keeps
    its tool calls when its content is a list of blocks, a tool message its
    tool call id); any other message is left out. *)
Definition keptMessage (msg : BodyMessage) : list Message :=
  if jsstring_eqb (bm_role msg) (js "user") then
    [{| role := RoleUser; content := bm_content msg; tool_calls := None; tool_call_id := None |}]
  else if jsstring_eqb (bm_role msg) (js "assistant") then
    [{| role := RoleAssistant; content := bm_content msg;
        tool_calls := match bm_content msg with Text _ => None | Blocks _ => bm_tool_calls msg end;
        tool_call_id := None |}]
  else if jsstring_eqb (bm_role msg) (js "tool") then
    [{| role := RoleTool; content := bm_content msg; tool_calls := None;
        tool_call_id := bm_tool_call_id msg |}]
  else [].

(** The system texts a request offers, in order of precedence: [body.system],
    then the text of each message of role system. *)
Definition systemCandidates (body : RequestBody) : list jsstring :=
  match body_system body with Some s => [s] | None => [] end
  ++ map (fun msg => systemText (bm_content msg))
       (filter (fun msg => jsstring_eqb (bm_role msg) (js "system"))
          match body_messages body with Some msgs => msgs | None => [] end).

Definition systemMessage (s : jsstring) : Message :=
  {| role := RoleSystem; content := Text s; tool_calls := None; tool_call_id := None |}.


(** The handler map after the server was made and served the requests for
    the models [requests], one after the other. *)
Definition servedHandlers (toLowerCase : jsstring -> jsstring) (cfg : ProxyConfig)
    (requests : list jsstring) : HandlerMap :=
  fold_left (fun handlers requestedModel =>
               snd (getHandlerForRequest toLowerCase cfg handlers requestedModel))
    requests (initialHandlers cfg).

(** A line that the loop over the lines steps over. *)
Definition steppedOver `{Collaborators} (line : jsstring) : Prop :=
  forall (st : StreamState) (rest : list jsstring),
    processLines st (line :: rest) = processLines st rest.

(** [st'] keeps the chunks of [st] and the identities of its tool calls,
    and may add some. *)
Definition grows `{Collaborators} (st st' : StreamState) : Prop :=
  (exists more, s_onChunk st' = s_onChunk st ++ more)
  /\ (exists more,
        map callIdentity (s_toolCalls st') = map callIdentity (s_toolCalls st) ++ more).

(** The function calls among some parts, and among the parts of some
    candidates. *)
Definition partCalls (parts : list GeminiPart) : list FunctionCall :=
  flat_map (fun part => match p_functionCall part with Some fc => [fc] | None => [] end) parts.

Definition candidateCalls (candidates : list GeminiCandidate) : list FunctionCall :=
  flat_map (fun candidate =>
              match c_parts candidate with Some parts => partCalls parts | None => [] end)
    candidates.

(* ================================================================== *)
(** * Properties of the canonical stream *)
(* ================================================================== *)

Section StreamFacts.

Variable now : N.
Variable bodyModel : jsstring.

(** Once the text block is open, a chunk adds one delta and its text. *)
Lemma onChunk_started (st : RequestState) (chunk : jsstring) :
  isFirstTextChunk st = false ->
  onChunk now bodyModel st chunk =
  {| currentToolUseIndex := currentToolUseIndex st;
     r_fullContent := r_fullContent st ++ chunk;
     streamedContent := streamedContent st ++ chunk;
     isFirstTextChunk := false;
     controller := controller st ++ [Enqueue (ContentBlockDelta 0 chunk)] |}.
Proof.
  intros Hopen. unfold onChunk. rewrite Hopen. reflexivity.
Qed.

Lemma fold_onChunk_started (cs : list jsstring) :
  forall st : RequestState,
  isFirstTextChunk st = false ->
  fold_left (onChunk now bodyModel) cs st =
  {| currentToolUseIndex := currentToolUseIndex st;
     r_fullContent := r_fullContent st ++ concat cs;
     streamedContent := streamedContent st ++ concat cs;
     isFirstTextChunk := false;
     controller := controller st ++ map Enqueue (map (ContentBlockDelta 0) cs) |}.
Proof.
  induction cs as [|c cs IH]; intros st Hopen.
  - destruct st as [i f s b q]. simpl in *. subst b. now rewrite !app_nil_r.
  - cbn [fold_left]. rewrite IH by (now rewrite onChunk_started).
    rewrite onChunk_started by assumption. cbn.
    now rewrite <- !app_assoc.
Qed.

(** The request after all chunks of a run. *)
Lemma fold_onChunk_new (cs : list jsstring) :
  fold_left (onChunk now bodyModel) cs newRequest =
  {| currentToolUseIndex := 0;
     r_fullContent := concat cs;
     streamedContent := concat cs;
     isFirstTextChunk := match cs with [] => true | _ :: _ => false end;
     controller :=
       map Enqueue
         match cs with
         | [] => []
         | _ :: _ => [MessageStart now bodyModel; ContentBlockStartText 0]
                     ++ map (ContentBlockDelta 0) cs
         end |}.
Proof.
  destruct cs as [|c cs]; [reflexivity|].
  cbn [fold_left]. rewrite fold_onChunk_started by reflexivity.
  reflexivity.
Qed.

(** The tool-use blocks continue the numbering and leave the text alone. *)
Lemma toolUseBlocks_frames (tcs : list ToolCall) :
  forall st : RequestState,
  toolUseBlocks st tcs =
  {| currentToolUseIndex := currentToolUseIndex st + N.of_nat (length tcs);
     r_fullContent := r_fullContent st;
     streamedContent := streamedContent st;
     isFirstTextChunk := isFirstTextChunk st;
     controller := controller st ++ map Enqueue (toolUseFrames (currentToolUseIndex st) tcs) |}.
Proof.
  induction tcs as [|tc tcs IH]; intros st.
  - destruct st. cbn. now rewrite N.add_0_r, app_nil_r.
  - cbn [toolUseBlocks]. rewrite IH. cbn [currentToolUseIndex r_fullContent streamedContent
      isFirstTextChunk controller toolUseFrames length].
    f_equal; [lia|]. rewrite <- app_assoc. reflexivity.
Qed.

(** Every action of a run that returns: the text block, the tool-use blocks,
    the closing frames, the close. *)
Lemma actions_returned (cs : list jsstring) (r : GenerationResult) :
  actions now bodyModel {| chunks := cs; outcome := Returned r |} =
  map Enqueue (textFrames now bodyModel cs
               ++ toolUseFrames 0 (toolCalls r)
               ++ closingFrames (length (concat cs)))
  ++ [Close].
Proof.
  unfold actions, start. cbn [chunks outcome]. rewrite fold_onChunk_new.
  unfold afterGenerate.
  change (fun s : RequestState => outputTokens s)
    with (fun s : RequestState => estimate (length (streamedContent s))).
  destruct (toolCalls r) as [|tc tcs] eqn:Htcs; destruct cs as [|c cs];
    rewrite ?toolUseBlocks_frames;
    cbn -[estimate concat]; rewrite ?map_app, <- ?app_assoc; cbn -[estimate concat];
    rewrite ?map_app, <- ?app_assoc; reflexivity.
Qed.

(** Every action of a run that throws: what the chunks opened, one error
    frame, the close. *)
Lemma actions_threw (cs : list jsstring) (message : jsstring) :
  actions now bodyModel {| chunks := cs; outcome := Threw message |} =
  map Enqueue
    (match cs with
     | [] => []
     | _ :: _ => [MessageStart now bodyModel; ContentBlockStartText 0]
                 ++ map (ContentBlockDelta 0) cs
     end ++ [ServerError (js "Stream error: " ++ message)])
  ++ [Close].
Proof.
  unfold actions, start. cbn [chunks outcome]. rewrite fold_onChunk_new.
  unfold onStreamError, enqueue. cbn. now rewrite map_app.
Qed.

End StreamFacts.

Lemma frames_app (a b : list Action) : frames (a ++ b) = frames a ++ frames b.
Proof.
  induction a as [|[f|] a IH]; cbn; [reflexivity | now rewrite IH | exact IH].
Qed.

Lemma frames_enqueue (fs : list Frame) : frames (map Enqueue fs) = fs.
Proof.
  induction fs as [|f fs IH]; cbn; [reflexivity | now rewrite IH].
Qed.

Lemma toolUseIndices_app (a b : list Frame) :
  toolUseIndices (a ++ b) = toolUseIndices a ++ toolUseIndices b.
Proof.
  induction a as [|f a IH]; [reflexivity|].
  destruct f; cbn; rewrite ?IH; reflexivity.
Qed.

Lemma toolUseIndices_textFrames (now : N) (m : jsstring) (cs : list jsstring) :
  toolUseIndices (textFrames now m cs) = [].
Proof.
  destruct cs as [|c cs]; [reflexivity|]. unfold textFrames.
  cbn [app toolUseIndices]. rewrite toolUseIndices_app.
  replace (toolUseIndices (map (ContentBlockDelta 0) (c :: cs))) with (@nil N); [reflexivity|].
  generalize (c :: cs). intros l. induction l as [|x l IH]; [reflexivity | exact IH].
Qed.

Lemma toolUseIndices_toolUseFrames (tcs : list ToolCall) :
  forall k : N,
  toolUseIndices (toolUseFrames k tcs) = map (fun i => (k + N.of_nat i)%N) (seq 1 (length tcs)).
Proof.
  induction tcs as [|tc tcs IH]; intros k; [reflexivity|].
  cbn [toolUseFrames app toolUseIndices length seq map]. rewrite IH.
  rewrite <- (seq_shift (length tcs) 1), map_map. f_equal.
  apply map_ext. intros i. lia.
Qed.

(** [ceilDiv4 n] is the least number of fours that cover [n]. *)
Lemma ceilDiv4_ceiling (n : N) : (n <= 4 * ceilDiv4 n < n + 4)%N.
Proof.
  unfold ceilDiv4.
  assert (Hdm := N.div_mod (n + 3) 4 ltac:(discriminate)).
  assert (Hlt := N.mod_lt (n + 3) 4 ltac:(discriminate)).
  generalize dependent ((n + 3) / 4)%N. generalize dependent ((n + 3) mod 4)%N.
  intros r Hlt q Hdm. lia.
Qed.

Lemma toolUseIndices_deltas (i : N) (cs : list jsstring) :
  toolUseIndices (map (ContentBlockDelta i) cs) = [].
Proof.
  induction cs as [|c cs IH]; [reflexivity | exact IH].
Qed.

Lemma sorted_indices (n : nat) :
  forall s : nat, StronglySorted N.lt (map N.of_nat (seq s n)).
Proof.
  induction n as [|n IH]; intros s; cbn; constructor; [apply IH|].
  apply Forall_forall. intros x Hx.
  apply in_map_iff in Hx. destruct Hx as [i [<- Hi]].
  apply in_seq in Hi. lia.
Qed.

(** The indices of the tool-use blocks of any run are [1, 2, ..., n] for the
    [n] tool calls of its result. *)
Lemma toolUseIndices_actions (now : N) (bodyModel : jsstring) (run : HandlerRun) :
  toolUseIndices (frames (actions now bodyModel run))
  = map N.of_nat (seq 1 (length (returnedToolCalls run))).
Proof.
  destruct run as [cs [r|message]]; unfold returnedToolCalls; cbn [outcome].
  - rewrite actions_returned, frames_app, frames_enqueue. cbn [frames].
    rewrite app_nil_r, !toolUseIndices_app, toolUseIndices_textFrames.
    rewrite toolUseIndices_toolUseFrames. cbn [app toolUseIndices closingFrames].
    rewrite app_nil_r. apply map_ext. intros i. lia.
  - rewrite actions_threw, frames_app, frames_enqueue. cbn [frames].
    rewrite app_nil_r, toolUseIndices_app.
    destruct cs as [|c cs]; [reflexivity|].
    cbn [app toolUseIndices]. now rewrite toolUseIndices_deltas.
Qed.

(** Every frame of the tool-use blocks numbered after [k] has an index above [k]. *)
Lemma toolUseFrames_above (tcs : list ToolCall) :
  forall k : N,
  Forall (fun f => match blockIndex f with Some i => (k < i)%N | None => True end)
    (toolUseFrames k tcs).
Proof.
  induction tcs as [|tc tcs IH]; intros k; cbn [toolUseFrames app]; [constructor|].
  constructor; [cbn [blockIndex]; lia|]. constructor; [cbn [blockIndex]; lia|].
  eapply Forall_impl; [|apply IH].
  intros f. cbv beta. destruct (blockIndex f); [lia | trivial].
Qed.

(** The text of a frame on the wire. *)
Example render_delta :
  render (ContentBlockDelta 0 (js "He"))
  = js "event: content_block_delta" ++ [10%N]
    ++ jsq "data: {'type':'content_block_delta','index':0,'delta':{'type':'text_delta','text':'He'}}"
    ++ [10%N; 10%N].
Proof. vm_compute. reflexivity. Qed.

(** C2. A run with at least one text chunk whose result has no tool call
    puts on the stream exactly: message_start, content_block_start of block
    0, one content_block_delta of block 0 per chunk, in order and with the
    text of the chunk, content_block_stop of block 0, message_delta,
    message_stop, the terminator; then the stream is closed. *)
Theorem C2_text_only_stream (now : N) (bodyModel : jsstring)
    (cs : list jsstring) (r : GenerationResult) :
  cs <> [] ->
  toolCalls r = [] ->
  actions now bodyModel {| chunks := cs; outcome := Returned r |} =
  map Enqueue
    ([MessageStart now bodyModel; ContentBlockStartText 0]
     ++ map (ContentBlockDelta 0) cs
     ++ [ContentBlockStop 0;
         MessageDelta (js "end_turn") (estimate (length (concat cs)));
         MessageStop;
         Terminator])
  ++ [Close].
Proof.
  intros Hcs Htcs. rewrite actions_returned, Htcs.
  destruct cs as [|c cs]; [contradiction|].
  unfold textFrames, closingFrames. cbn [toolUseFrames app].
  now rewrite <- !app_assoc.
Qed.

Lemma C2_text_only_stream_witness :
  [js "He"; js "llo"] <> [] /\
  actions 1700000000000 (js "o/model-x")
    {| chunks := [js "He"; js "llo"];
       outcome := Returned {| fullContent := js "Hello"; toolCalls := [];
                              reasoningDetails := [] |} |}
  = [Enqueue (MessageStart 1700000000000 (js "o/model-x"));
     Enqueue (ContentBlockStartText 0);
     Enqueue (ContentBlockDelta 0 (js "He"));
     Enqueue (ContentBlockDelta 0 (js "llo"));
     Enqueue (ContentBlockStop 0);
     Enqueue (MessageDelta (js "end_turn") 2);
     Enqueue MessageStop;
     Enqueue Terminator;
     Close].
Proof.
  split; [discriminate|].
  apply (@C2_text_only_stream 1700000000000 (js "o/model-x") [js "He"; js "llo"]);
    [discriminate | reflexivity].
Defined.

(** C3. A run without text chunk and without tool call, such as the stream
    of a backend that sends the end marker only, puts on the stream
    message_delta, message_stop and the terminator: no message_start opens
    the envelope. *)
Theorem C3_empty_stream_lacks_message_start (now : N) (bodyModel : jsstring) :
  (forall (fc : jsstring) (rd : list json),
     actions now bodyModel
       {| chunks := [];
          outcome := Returned {| fullContent := fc; toolCalls := []; reasoningDetails := rd |} |}
     = [Enqueue (MessageDelta (js "end_turn") 1); Enqueue MessageStop; Enqueue Terminator; Close])
  /\ actions now bodyModel
       (@handleStreamingResponse noMiddleware
          {| reads := [js "data: [DONE]" ++ [10%N]]; failure := None |})
     = [Enqueue (MessageDelta (js "end_turn") 1); Enqueue MessageStop; Enqueue Terminator; Close].
Proof.
  split; [intros fc rd|]; reflexivity.
Qed.

(** C4. Without text chunk and with the two tool calls A then B, the stream
    carries no block 0 and exactly the two tool-use blocks 1 (for A) and 2
    (for B), each start directly followed by its stop; without text no
    frame belongs to block 0, whatever the tool calls. In every run the
    frames are the text block, then one start-stop pair per tool call, then
    the closing frames, and the indices of the tool-use blocks are
    1, 2, ..., n: strictly increasing, positive, never the text index 0. *)
Theorem C4_tool_use_blocks (now : N) (bodyModel : jsstring) :
  (forall (A B : ToolCall) (fc : jsstring) (rd : list json),
     actions now bodyModel
       {| chunks := [];
          outcome := Returned {| fullContent := fc; toolCalls := [A; B];
                                 reasoningDetails := rd |} |}
     = [Enqueue (ContentBlockStartToolUse 1 (tc_id A) (tc_name A) (tc_args A));
        Enqueue (ContentBlockStop 1);
        Enqueue (ContentBlockStartToolUse 2 (tc_id B) (tc_name B) (tc_args B));
        Enqueue (ContentBlockStop 2);
        Enqueue (MessageDelta (js "end_turn") 1);
        Enqueue MessageStop;
        Enqueue Terminator;
        Close])
  /\ (forall (cs : list jsstring) (r : GenerationResult),
        frames (actions now bodyModel {| chunks := cs; outcome := Returned r |})
        = textFrames now bodyModel cs
          ++ toolUseFrames 0 (toolCalls r)
          ++ closingFrames (length (concat cs)))
  /\ (forall r : GenerationResult,
        Forall (fun f => blockIndex f <> Some textBlockIndex)
          (frames (actions now bodyModel {| chunks := []; outcome := Returned r |})))
  /\ (forall run : HandlerRun,
        let indices := toolUseIndices (frames (actions now bodyModel run)) in
        indices = map N.of_nat (seq 1 (length (returnedToolCalls run)))
        /\ StronglySorted N.lt indices
        /\ Forall (fun i => (0 < i)%N /\ i <> textBlockIndex) indices).
Proof.
  split; [|split; [|split]].
  - intros A B fc rd. reflexivity.
  - intros cs r. rewrite actions_returned, frames_app, frames_enqueue.
    cbn [frames]. now rewrite app_nil_r.
  - intros r. rewrite actions_returned, frames_app, frames_enqueue.
    cbn [frames textFrames app]. rewrite app_nil_r.
    apply Forall_app. split.
    + eapply Forall_impl; [|apply toolUseFrames_above].
      intros f. cbv beta. destruct (blockIndex f) as [i|]; [|discriminate].
      unfold textBlockIndex. intros Hi E. injection E as E. lia.
    + unfold closingFrames. repeat constructor; discriminate.
  - intros run indices. subst indices. rewrite toolUseIndices_actions.
    split; [reflexivity|]. split; [apply sorted_indices|].
    apply Forall_forall. intros x Hx.
    apply in_map_iff in Hx. destruct Hx as [i [<- Hi]].
    apply in_seq in Hi. unfold textBlockIndex. lia.
Qed.

(** C9, as stated, fails: a completed stream without text carries the
    estimate 1 in its message_delta, not the rounded-up quarter of its
    character count, which is 0. *)
Lemma C9_counterexample :
  ~ (forall (cs : list jsstring) (r : GenerationResult),
       In (MessageDelta (js "end_turn") (ceilDiv4 (N.of_nat (length (concat cs)))))
          (frames (actions 0 (js "claude-3-haiku")
                     {| chunks := cs; outcome := Returned r |}))).
Proof.
  intros Hclaim.
  specialize (Hclaim [] {| fullContent := []; toolCalls := []; reasoningDetails := [] |}).
  cbn in Hclaim. destruct Hclaim as [H|[H|[H|[]]]]; discriminate H.
Qed.

(** C9, amended. Every completed stream ends with message_delta, then
    message_stop, then the terminator, then the close of the transport; the
    message_delta carries stop_reason end_turn and, as output_tokens, the
    streamed character count divided by 4 and rounded up when some
    character was streamed, and 1 when none was. *)
Theorem C9_completion (now : N) (bodyModel : jsstring)
    (cs : list jsstring) (r : GenerationResult) :
  let count := N.of_nat (length (concat cs)) in
  exists (before : list Frame) (tokens : N),
    actions now bodyModel {| chunks := cs; outcome := Returned r |}
    = map Enqueue before
      ++ [Enqueue (MessageDelta (js "end_turn") tokens);
          Enqueue MessageStop;
          Enqueue Terminator;
          Close]
    /\ tokens = (if (0 <? count)%N then ceilDiv4 count else 1%N)
    /\ (count <= 4 * ceilDiv4 count < count + 4)%N.
Proof.
  intros count.
  exists (textFrames now bodyModel cs ++ toolUseFrames 0 (toolCalls r)).
  exists (estimate (length (concat cs))).
  split; [|split].
  - rewrite actions_returned. unfold closingFrames.
    rewrite !map_app, <- !app_assoc. reflexivity.
  - reflexivity.
  - apply ceilDiv4_ceiling.
Qed.

(* ================================================================== *)
(** * Properties of the backend selection *)
(* ================================================================== *)

Lemma andAlso_truthy (b : bool) (o : option jsstring) :
  andAlso b o = if b && truthyStr o then o else None.
Proof.
  destruct o as [s|]; cbn; [|now rewrite andb_false_r].
  destruct b, (nonEmpty s); reflexivity.
Qed.

(** C5. In monitor mode the handler of every request is the pass-through
    native handler, whatever the requested model, the default model, the
    model mappings, the Gemini key and the Gemini flag; no handler is made. *)
Theorem C5_monitor_mode_native (toLowerCase : jsstring -> jsstring)
    (cfg : ProxyConfig) (handlers : HandlerMap) (requestedModel : jsstring) :
  monitorMode cfg = true ->
  getHandlerForRequest toLowerCase cfg handlers requestedModel = (NativeHandler, handlers).
Proof.
  intros Hmonitor. unfold getHandlerForRequest. now rewrite Hmonitor.
Qed.

Lemma C5_monitor_mode_native_witness :
  let cfg := {| model := Some (js "google/gemini-pro");
                monitorMode := true;
                geminiApiKey := Some (js "key");
                useGeminiNative := true;
                modelMap := Some {| opus := Some (js "x-ai/grok-4"); sonnet := None;
                                    haiku := None; subagent := None |} |} in
  monitorMode cfg = true /\
  getHandlerForRequest asciiToLowerCase cfg (initialHandlers cfg) (js "claude-3-opus-20240229")
  = (NativeHandler, initialHandlers cfg).
Proof.
  intros cfg. split; [reflexivity|].
  apply (@C5_monitor_mode_native asciiToLowerCase cfg); reflexivity.
Defined.

(** C6. The target that [getHandlerForRequest] resolves is the one of the
    rule in words: the override of the first tier among opus, sonnet, haiku,
    in that order, whose name occurs in the lower-cased requested id and
    whose override is configured (a tier whose name occurs but whose override
    is unset is passed over); without such a tier the global default model
    when configured, else the requested id. *)
Theorem C6_resolved_target (toLowerCase : jsstring -> jsstring)
    (cfg : ProxyConfig) (requestedModel : jsstring) :
  resolveTarget toLowerCase cfg requestedModel
  = spec_resolveTarget toLowerCase cfg requestedModel.
Proof.
  unfold resolveTarget, spec_resolveTarget, orElse.
  destruct (modelMap cfg) as [mm|]; [|reflexivity].
  unfold tiers, tierApplies. cbn [find fst snd].
  rewrite !andAlso_truthy.
  destruct (includes (js "opus") (toLowerCase requestedModel) && truthyStr (opus mm)) eqn:Ho.
  - apply andb_prop in Ho. destruct Ho as [_ Ho].
    destruct (opus mm); [reflexivity | discriminate Ho].
  - destruct (includes (js "sonnet") (toLowerCase requestedModel) && truthyStr (sonnet mm)) eqn:Hs.
    + apply andb_prop in Hs. destruct Hs as [_ Hs].
      destruct (sonnet mm); [reflexivity | discriminate Hs].
    + destruct (includes (js "haiku") (toLowerCase requestedModel) && truthyStr (haiku mm)) eqn:Hh.
      * apply andb_prop in Hh. destruct Hh as [_ Hh].
        destruct (haiku mm); [reflexivity | discriminate Hh].
      * reflexivity.
Qed.

(** The rule at work: opus occurs but has no override, so the sonnet
    override applies although a default model is configured. *)
Example resolveTarget_skips_unset_tier :
  resolveTarget asciiToLowerCase
    {| model := Some (js "openai/gpt-4o"); monitorMode := false; geminiApiKey := None;
       useGeminiNative := false;
       modelMap := Some {| opus := None; sonnet := Some (js "x-ai/grok-4");
                           haiku := Some (js "qwen/qwen3"); subagent := None |} |}
    (js "Claude-Opus-Sonnet-Haiku")
  = js "x-ai/grok-4".
Proof. reflexivity. Qed.

(* ================================================================== *)
(** * Properties of the line splitting *)
(* ================================================================== *)

Lemma split_nonempty (sep : code_unit) (s : jsstring) : split sep s <> [].
Proof.
  destruct s as [|c r]; cbn; [discriminate|].
  destruct (N.eqb c sep); [discriminate|].
  destruct (split sep r); discriminate.
Qed.

Lemma last_app_nonempty (A : Type) (l l' : list A) (d : A) :
  l' <> [] -> last (l ++ l') d = last l' d.
Proof.
  intros Hl'. induction l as [|x l IH]; [reflexivity|].
  cbn [app last]. destruct (l ++ l') eqn:E; [|exact IH].
  apply app_eq_nil in E. destruct E as [_ E]. contradiction.
Qed.

(** Splitting a text in two parts: the complete pieces of the first part
    stay, its last piece continues into the second part. *)
Lemma split_app (sep : code_unit) (x y : jsstring) :
  split sep (x ++ y)
  = removelast (split sep x) ++ split sep (last (split sep x) [] ++ y).
Proof.
  induction x as [|c x IH]; [reflexivity|].
  cbn [app split]. destruct (N.eqb c sep) eqn:Hc.
  - rewrite IH. pose proof (split_nonempty sep x) as Hne.
    destruct (split sep x) as [|l0 ls0] eqn:E; [contradiction|]. reflexivity.
  - rewrite IH. pose proof (split_nonempty sep x) as Hne.
    destruct (split sep x) as [|l0 ls0] eqn:E; [contradiction|].
    destruct ls0 as [|l1 ls1].
    + cbn [removelast last app split]. rewrite Hc. reflexivity.
    + reflexivity.
Qed.

Lemma split_without_separator (sep : code_unit) (s : jsstring) :
  existsb (N.eqb sep) s = false -> split sep s = [s].
Proof.
  induction s as [|c s IH]; [reflexivity|].
  cbn [existsb split]. intros H. apply orb_false_elim in H. destruct H as [Hc Hs].
  rewrite N.eqb_sym, Hc, (IH Hs). reflexivity.
Qed.

Lemma split_first_line (sep : code_unit) (line b : jsstring) :
  existsb (N.eqb sep) line = false ->
  split sep (line ++ sep :: b) = line :: split sep b.
Proof.
  induction line as [|c line IH]; cbn [app existsb split]; intros H.
  - now rewrite N.eqb_refl.
  - apply orb_false_elim in H. destruct H as [Hc Hline].
    rewrite N.eqb_sym, Hc, (IH Hline). reflexivity.
Qed.

Lemma split_pieces (sep : code_unit) (s : jsstring) :
  Forall (fun piece => existsb (N.eqb sep) piece = false) (split sep s).
Proof.
  induction s as [|c s IH]; cbn [split]; [repeat constructor|].
  destruct (N.eqb c sep) eqn:Hc; [constructor; [reflexivity | exact IH]|].
  destruct (split sep s) as [|l ls]; [repeat constructor; cbn; now rewrite N.eqb_sym, Hc|].
  inversion IH as [|? ? Hl Hls]; subst. constructor; [|exact Hls].
  cbn [existsb]. now rewrite N.eqb_sym, Hc, Hl.
Qed.

Lemma last_piece (sep : code_unit) (s : jsstring) :
  existsb (N.eqb sep) (last (split sep s) []) = false.
Proof.
  pose proof (split_pieces sep s) as Hall.
  pose proof (split_nonempty sep s) as Hne.
  induction (split sep s) as [|l ls IH]; [contradiction|].
  inversion Hall as [|? ? Hl Hls]; subst.
  destruct ls as [|l' ls']; [exact Hl|].
  apply IH; [exact Hls | discriminate].
Qed.

(** After a text that ends a line, the unfinished last piece is empty. *)
Lemma endsLine_last (t : jsstring) :
  endsLine t = true -> last (split 10%N t) [] = [].
Proof.
  unfold endsLine. destruct (rev t) as [|c r] eqn:E; intros Hend.
  - apply (f_equal (@rev N)) in E. rewrite rev_involutive in E. now subst t.
  - apply N.eqb_eq in Hend. subst c.
    apply (f_equal (@rev N)) in E. rewrite rev_involutive in E. cbn [rev] in E. subst t.
    rewrite split_app, last_app_nonempty by apply split_nonempty.
    rewrite split_first_line by apply last_piece. reflexivity.
Qed.

(** The pieces of a text with one more line, put in at the start of a line. *)
Lemma split_line_inserted (sep : code_unit) (t line b : jsstring) :
  existsb (N.eqb sep) line = false ->
  last (split sep t) [] = [] ->
  split sep (t ++ line ++ [sep] ++ b) = removelast (split sep t) ++ line :: split sep b
  /\ split sep (t ++ b) = removelast (split sep t) ++ split sep b.
Proof.
  intros Hline Hstart.
  rewrite (split_app sep t (line ++ [sep] ++ b)), (split_app sep t b), Hstart.
  cbn [app]. split; [|reflexivity].
  f_equal. now apply split_first_line.
Qed.

(* ================================================================== *)
(** * Properties of the aggregator stream *)
(* ================================================================== *)

Section OpenRouterFacts.

Context `{Collaborators}.




Lemma setArgs_length (a : json) (l : list ToolCall) :
  forall i : nat, length (setArgs i a l) = length l.
Proof.
  induction l as [|t l IH]; intros i; destruct i as [|i]; cbn; rewrite ?IH; reflexivity.
Qed.

Ltac split_cases :=
  repeat match goal with
         | |- context [match ?x with _ => _ end] => destruct x eqn:?
         end.

Lemma toolCallFragment_consistent (st : StreamState) (tc : json) :
  consistent st -> consistent (fst (toolCallFragment st tc)).
Proof.
  intros Hst. unfold toolCallFragment, startToolCall, appendToolCall.
  split_cases; cbn [fst]; try exact Hst;
    destruct Hst as [Hcur Htext]; unfold consistent;
    cbn [s_currentToolCall s_toolCalls s_fullContent s_onChunk];
    rewrite ?setArgs_length, ?length_app; cbn [length];
    (split; [|assumption]);
    first [ assumption | lia
          | match goal with
            | E : s_currentToolCall _ = _ |- _ => rewrite E in Hcur; exact Hcur
            end ].
Qed.

Lemma toolCallFragments_consistent (tcs : list json) :
  forall st : StreamState,
  consistent st -> consistent (fst (toolCallFragments st tcs)).
Proof.
  induction tcs as [|tc tcs IH]; intros st Hst; [exact Hst|].
  cbn [toolCallFragments].
  pose proof (toolCallFragment_consistent tc Hst) as Hstep.
  destruct (toolCallFragment st tc) as [st' [|]]; [apply IH|]; exact Hstep.
Qed.

Lemma processChunk_consistent (st : StreamState) (chunk : json) :
  consistent st -> consistent (fst (processChunk st chunk)).
Proof.
  intros Hst. unfold processChunk.
  assert (Hmeta : forall m, consistent
            {| s_fullContent := s_fullContent st; s_toolCalls := s_toolCalls st;
               s_currentToolCall := s_currentToolCall st; s_onChunk := s_onChunk st;
               s_streamMetadata := m; s_generatedIds := s_generatedIds st |})
    by (intros m; exact Hst).
  assert (Htext : forall s d, consistent s -> consistent (textOf s d)).
  { intros s d [Hcur Hfull]. unfold textOf.
    destruct (truthy (get "content" d)); [|split; assumption].
    split; [exact Hcur|]. cbn [s_fullContent s_onChunk].
    rewrite concat_app, Hfull. cbn [concat]. now rewrite app_nil_r. }
  assert (Htools : forall s d, consistent s -> consistent (fst (toolCallsOf s d))).
  { intros s d Hs. unfold toolCallsOf.
    destruct (truthy (get "tool_calls" d)); [|exact Hs].
    destruct (get "tool_calls" d) as [[| | | |tcs|]|]; try exact Hs.
    now apply toolCallFragments_consistent. }
  destruct chunk; try exact Hst;
    (destruct (truthy _); [|exact Hst];
     destruct (getOpt "delta" _) as [d|]; [|exact Hst];
     destruct (afterStreamChunk _ d (s_streamMetadata st)) as [m [|]];
     [apply Htools, Htext, Hmeta | apply Hmeta]).
Qed.

Lemma processLines_consistent (lines : list jsstring) :
  forall st : StreamState,
  consistent st -> consistent (processLines st lines).
Proof.
  induction lines as [|line lines IH]; intros st Hst; [exact Hst|].
  cbn [processLines].
  destruct (negb (nonEmpty (trim line)) || negb (startsWith (js "data: ") line)); [now apply IH|].
  destruct (jsstring_eqb (slice_from 6 line) (js "[DONE]")); [exact Hst|].
  apply IH. unfold processData.
  destruct (JSON_parse (slice_from 6 line)); [now apply processChunk_consistent | exact Hst].
Qed.

Lemma readLoop_consistent (reads : list jsstring) :
  forall (st : StreamState) (buffer : jsstring),
  consistent st -> consistent (readLoop st buffer reads).
Proof.
  induction reads as [|v reads IH]; intros st buffer Hst; [exact Hst|].
  cbn [readLoop]. apply IH. now apply processLines_consistent.
Qed.

(** The text of the result is the text streamed, chunk after chunk. *)
Lemma fullContent_is_streamed (body : ResponseBody) (r : GenerationResult) :
  outcome (handleStreamingResponse body) = Returned r ->
  fullContent r = concat (chunks (handleStreamingResponse body)).
Proof.
  unfold handleStreamingResponse. cbn [outcome chunks].
  destruct (failure body); [discriminate|].
  intros E. injection E as <-. cbn [fullContent].
  apply (readLoop_consistent (reads body) (st := initialState) []).
  split; reflexivity.
Qed.




End OpenRouterFacts.



(** The example of the specification: two text chunks, then the end marker. *)
Example hello_stream :
  let run :=
    @handleStreamingResponse noMiddleware
      {| reads := [jsq "data: {'choices':[{'delta':{'content':'He'}}]}" ++ [10%N];
                   jsq "data: {'choices':[{'delta':{'content':'llo'}}]}" ++ [10%N]
                   ++ doneLine];
         failure := None |} in
  run = {| chunks := [js "He"; js "llo"];
           outcome := Returned {| fullContent := js "Hello"; toolCalls := [];
                                  reasoningDetails := [] |} |}.
Proof. vm_compute. reflexivity. Qed.

(** C1. The arguments [{"city":"Paris"}] of one tool call, delivered as the
    two fragments [{"city":] and ["Paris"}], are not put together again.
    When the first fragment comes with the function name, the call is
    missing from the result; when the name comes first with empty argument
    text and both fragments follow, the call carries the empty object. The
    unfragmented text parses to the object with the member city. *)
Theorem C1_fragments_are_not_reassembled :
  let first := jsq "{'city':" in
  let second := jsq "'Paris'}" in
  let run (lines : list jsstring) :=
    @handleStreamingResponse noMiddleware {| reads := lines; failure := None |} in
  JSON_parse (first ++ second) = Some (JObj [(js "city", JStr (js "Paris"))])
  /\ outcome (run [dataLine (namedFragment "call_1" "get_weather" first);
                   dataLine (argumentFragment second);
                   doneLine])
     = Returned {| fullContent := []; toolCalls := []; reasoningDetails := [] |}
  /\ outcome (run [dataLine (namedFragment "call_1" "get_weather" []);
                   dataLine (argumentFragment first);
                   dataLine (argumentFragment second);
                   doneLine])
     = Returned {| fullContent := [];
                   toolCalls := [{| tc_id := JStr (js "call_1");
                                    tc_name := JStr (js "get_weather");
                                    tc_args := JObj [] |}];
                   reasoningDetails := [] |}.
Proof.
  vm_compute. repeat split; reflexivity.
Qed.




(* ================================================================== *)
(** * Properties of the native chat request *)
(* ================================================================== *)

(** A message of role system leaves no element in [geminiMessages]. *)
Lemma geminiMessages_skips_system (before after : list Message) (msg : Message) :
  role msg = RoleSystem ->
  geminiMessages (before ++ msg :: after) = geminiMessages (before ++ after).
Proof.
  intros Hrole. unfold geminiMessages.
  rewrite !map_app, !filter_app. cbn [map filter].
  unfold hasRole at 2, toGeminiMessage at 2. cbn [g_role]. rewrite Hrole. reflexivity.
Qed.

(** C10. A request that has a system prompt and no other message reaches
    the handler as the single message of role system; the history sent is
    empty, and the text of that system message is what is sent to the
    backend as the message of the turn. *)
Theorem C10_lone_system_message_is_sent :
  let body := {| body_model := js "gemini-2.0-flash";
                 body_system := Some (js "Be terse.");
                 body_messages := Some [] |} in
  requestMessages body
  = [{| role := RoleSystem; content := Text (js "Be terse.");
        tool_calls := None; tool_call_id := None |}]
  /\ geminiMessages (requestMessages body) = []
  /\ geminiRequest (requestMessages body)
     = Some {| history := []; prompt := Text (js "Be terse.") |}.
Proof.
  cbv zeta. repeat split; reflexivity.
Qed.

(* ================================================================== *)
(** * Further properties: the handler map and the routing *)
(* ================================================================== *)

Lemma jsstring_eqb_eq (a b : jsstring) : jsstring_eqb a b = true <-> a = b.
Proof.
  revert b. induction a as [|x a IH]; intros [|y b]; cbn; split; intros E;
    try reflexivity; try discriminate E.
  - apply andb_prop in E. destruct E as [Exy Eab].
    apply N.eqb_eq in Exy. apply IH in Eab. now subst.
  - injection E as -> ->. rewrite N.eqb_refl. now apply IH.
Qed.

Lemma jsstring_eqb_refl (a : jsstring) : jsstring_eqb a a = true.
Proof. now apply jsstring_eqb_eq. Qed.

Lemma handlersGet_app (k : jsstring) (m m' : HandlerMap) :
  handlersGet k (m ++ m') =
  match handlersGet k m with
  | Some h => Some h
  | None => handlersGet k m'
  end.
Proof.
  induction m as [|[k' h] m IH]; [reflexivity|].
  cbn. destruct (jsstring_eqb k k'); [reflexivity | exact IH].
Qed.

Lemma handlersGet_absent (k : jsstring) (m : HandlerMap) :
  handlersGet k m = None -> ~ In k (map fst m).
Proof.
  induction m as [|[k' h] m IH]; cbn; [tauto|].
  destruct (jsstring_eqb k k') eqn:E; [discriminate|].
  intros Hm [Hk|Hk]; [|now apply IH].
  subst k'. now rewrite jsstring_eqb_refl in E.
Qed.

Lemma handlersGet_wellKeyed (k : jsstring) (m : HandlerMap) (h : APIHandler) :
  wellKeyed m -> handlersGet k m = Some h -> h = OpenRouterHandler k.
Proof.
  intros [_ Hall]. induction m as [|[k' h'] m IH]; cbn; [discriminate|].
  inversion Hall as [|? ? Hhead Htail]; subst. cbn in Hhead.
  destruct (jsstring_eqb k k') eqn:E; [|now apply IH].
  apply jsstring_eqb_eq in E. intros H. injection H as <-. now subst.
Qed.

Lemma getOpenRouterHandler_wellKeyed (t : jsstring) (m : HandlerMap) :
  wellKeyed m ->
  fst (getOpenRouterHandler t m) = OpenRouterHandler t
  /\ wellKeyed (snd (getOpenRouterHandler t m)).
Proof.
  intros Hm. unfold getOpenRouterHandler.
  destruct (handlersGet t m) as [h|] eqn:E; cbn [fst snd].
  - split; [now apply (handlersGet_wellKeyed t Hm) | exact Hm].
  - split; [reflexivity|]. destruct Hm as [Hnodup Hall]. split.
    + rewrite map_app. cbn [map fst].
      apply NoDup_app; [exact Hnodup | repeat constructor; intros [] |].
      intros a Ha [<-|[]]. now apply (handlersGet_absent t m).
    + apply Forall_app. split; [exact Hall | repeat constructor].
Qed.

Lemma warmUp_wellKeyed (o : option jsstring) (m : HandlerMap) :
  wellKeyed m -> wellKeyed (warmUp o m).
Proof.
  intros Hm. unfold warmUp. destruct o as [t|]; [|exact Hm].
  destruct (nonEmpty t); [|exact Hm]. now apply getOpenRouterHandler_wellKeyed.
Qed.

Lemma initialHandlers_wellKeyed (cfg : ProxyConfig) : wellKeyed (initialHandlers cfg).
Proof.
  unfold initialHandlers.
  assert (H0 : wellKeyed []) by (split; constructor).
  destruct (modelMap cfg); repeat apply warmUp_wellKeyed; exact H0.
Qed.

Lemma getHandlerForRequest_wellKeyed (toLowerCase : jsstring -> jsstring)
    (cfg : ProxyConfig) (m : HandlerMap) (requestedModel : jsstring) :
  wellKeyed m -> wellKeyed (snd (getHandlerForRequest toLowerCase cfg m requestedModel)).
Proof.
  intros Hm. unfold getHandlerForRequest.
  cbv zeta. generalize (resolveTarget toLowerCase cfg requestedModel). intros target.
  destruct (monitorMode cfg), (geminiNativeHandler cfg), (useGeminiNative cfg),
    (includes (js "gemini") target || includes (js "google/") target),
    (negb (includes (js "/") target));
    first [exact Hm | now apply getOpenRouterHandler_wellKeyed].
Qed.

Lemma servedHandlers_snoc (toLowerCase : jsstring -> jsstring) (cfg : ProxyConfig)
    (requests : list jsstring) (requestedModel : jsstring) :
  servedHandlers toLowerCase cfg (requests ++ [requestedModel])
  = snd (getHandlerForRequest toLowerCase cfg (servedHandlers toLowerCase cfg requests)
           requestedModel).
Proof.
  unfold servedHandlers. now rewrite fold_left_app.
Qed.

(** X1. Asking twice for the handler of one target gives the handler and
    the map of the first call: the second call creates nothing. *)
Theorem X1_handler_is_cached (targetModel : jsstring) (handlers : HandlerMap) :
  getOpenRouterHandler targetModel (snd (getOpenRouterHandler targetModel handlers))
  = getOpenRouterHandler targetModel handlers.
Proof.
  unfold getOpenRouterHandler.
  destruct (handlersGet targetModel handlers) as [h|] eqn:E; cbn [snd].
  - now rewrite E.
  - rewrite handlersGet_app, E. cbn. now rewrite jsstring_eqb_refl.
Qed.

Lemma servedHandlers_wellKeyed (toLowerCase : jsstring -> jsstring)
    (cfg : ProxyConfig) (requests : list jsstring) :
  wellKeyed (servedHandlers toLowerCase cfg requests).
Proof.
  induction requests as [|r requests IH] using rev_ind.
  - apply initialHandlers_wellKeyed.
  - rewrite servedHandlers_snoc. now apply getHandlerForRequest_wellKeyed.
Qed.

(** X2. Whatever requests the server has served, its handler map holds no
    target twice and under each target the aggregator handler made for it. *)
Theorem X2_handler_map_well_keyed (toLowerCase : jsstring -> jsstring)
    (cfg : ProxyConfig) (requests : list jsstring) :
  wellKeyed (servedHandlers toLowerCase cfg requests).
Proof.
  apply servedHandlers_wellKeyed.
Qed.

(** X3. A request leaves the entries of the handler map in place and adds
    at most one; it adds none unless it is answered by an aggregator handler. *)
Theorem X3_handler_map_grows_by_one (toLowerCase : jsstring -> jsstring)
    (cfg : ProxyConfig) (handlers : HandlerMap) (requestedModel : jsstring) :
  exists added : HandlerMap,
    snd (getHandlerForRequest toLowerCase cfg handlers requestedModel) = handlers ++ added
    /\ length added <= 1
    /\ match fst (getHandlerForRequest toLowerCase cfg handlers requestedModel) with
       | OpenRouterHandler _ => True
       | _ => added = []
       end.
Proof.
  unfold getHandlerForRequest.
  assert (Hsame : forall h : APIHandler,
            exists added : HandlerMap,
              handlers = handlers ++ added /\ length added <= 1
              /\ match h with OpenRouterHandler _ => True | _ => added = [] end).
  { intros h. exists []. rewrite app_nil_r. repeat split; [cbn; lia|]. now destruct h. }
  cbv zeta. generalize (resolveTarget toLowerCase cfg requestedModel). intros target.
  destruct (monitorMode cfg), (geminiNativeHandler cfg), (useGeminiNative cfg),
    (includes (js "gemini") target || includes (js "google/") target),
    (negb (includes (js "/") target));
    try apply Hsame;
    (unfold getOpenRouterHandler;
     destruct (handlersGet target handlers) as [h|]; cbn [fst snd]; [apply Hsame|];
     eexists; repeat split; cbn; lia).
Qed.

(** X4. Outside monitor mode, when the native Gemini handler is forced and
    a Gemini key is set, every request goes to the Gemini handler, whatever
    model it names and whatever the mappings are; the handler map is left
    alone. *)
Theorem X4_forced_gemini (toLowerCase : jsstring -> jsstring)
    (cfg : ProxyConfig) (handlers : HandlerMap) (requestedModel : jsstring) :
  monitorMode cfg = false ->
  useGeminiNative cfg = true ->
  truthyStr (geminiApiKey cfg) = true ->
  getHandlerForRequest toLowerCase cfg handlers requestedModel
  = (GeminiNativeHandler, handlers).
Proof.
  intros Hmonitor Hflag Hkey. unfold getHandlerForRequest, geminiNativeHandler.
  now rewrite Hmonitor, Hflag, Hkey.
Qed.

Lemma X4_forced_gemini_witness :
  let cfg := {| model := Some (js "openai/gpt-5"); monitorMode := false;
                geminiApiKey := Some (js "key"); useGeminiNative := true;
                modelMap := None |} in
  monitorMode cfg = false /\
  getHandlerForRequest asciiToLowerCase cfg (initialHandlers cfg) (js "claude-3-haiku")
  = (GeminiNativeHandler, initialHandlers cfg).
Proof.
  intros cfg. split; [reflexivity|].
  apply (@X4_forced_gemini asciiToLowerCase cfg); reflexivity.
Defined.

(** X5. Without a Gemini key no request is ever answered by the Gemini
    handler, not even with the flag that forces it or a Gemini model id. *)
Theorem X5_no_key_no_gemini (toLowerCase : jsstring -> jsstring)
    (cfg : ProxyConfig) (requests : list jsstring) (requestedModel : jsstring) :
  truthyStr (geminiApiKey cfg) = false ->
  fst (getHandlerForRequest toLowerCase cfg (servedHandlers toLowerCase cfg requests)
         requestedModel)
  <> GeminiNativeHandler.
Proof.
  intros Hkey. unfold getHandlerForRequest, geminiNativeHandler. rewrite Hkey.
  cbv zeta. generalize (resolveTarget toLowerCase cfg requestedModel). intros target.
  destruct (monitorMode cfg), (useGeminiNative cfg),
    (includes (js "gemini") target || includes (js "google/") target),
    (negb (includes (js "/") target));
    try discriminate;
    (rewrite (proj1 (getOpenRouterHandler_wellKeyed target
                       (servedHandlers_wellKeyed toLowerCase cfg requests)));
     discriminate).
Qed.

Lemma X5_no_key_no_gemini_witness :
  let cfg := {| model := None; monitorMode := false; geminiApiKey := None;
                useGeminiNative := true; modelMap := None |} in
  truthyStr (geminiApiKey cfg) = false /\
  fst (getHandlerForRequest asciiToLowerCase cfg
         (servedHandlers asciiToLowerCase cfg [js "google/gemini-2.5-flash"])
         (js "google/gemini-2.5-flash"))
  <> GeminiNativeHandler.
Proof.
  intros cfg. split; [reflexivity|].
  apply (@X5_no_key_no_gemini asciiToLowerCase cfg [js "google/gemini-2.5-flash"]).
  reflexivity.
Defined.

Lemma getOpenRouterHandler_recorded (t : jsstring) (m : HandlerMap) :
  handlersGet t (snd (getOpenRouterHandler t m)) = Some (fst (getOpenRouterHandler t m)).
Proof.
  unfold getOpenRouterHandler.
  destruct (handlersGet t m) as [h|] eqn:E; cbn [fst snd]; [exact E|].
  rewrite handlersGet_app, E. cbn. now rewrite jsstring_eqb_refl.
Qed.

(** X6. When a request is answered by an aggregator handler, the server is
    not in monitor mode, the handler is the one of the resolved target, that
    target contains a slash, and the handler is in the map afterwards. *)
Theorem X6_aggregator_handler_target (toLowerCase : jsstring -> jsstring)
    (cfg : ProxyConfig) (requests : list jsstring) (requestedModel t : jsstring) :
  fst (getHandlerForRequest toLowerCase cfg (servedHandlers toLowerCase cfg requests)
         requestedModel)
  = OpenRouterHandler t ->
  monitorMode cfg = false
  /\ t = resolveTarget toLowerCase cfg requestedModel
  /\ includes (js "/") t = true
  /\ handlersGet t
       (snd (getHandlerForRequest toLowerCase cfg (servedHandlers toLowerCase cfg requests)
               requestedModel))
     = Some (OpenRouterHandler t).
Proof.
  pose proof (servedHandlers_wellKeyed toLowerCase cfg requests) as Hm.
  revert Hm. generalize (servedHandlers toLowerCase cfg requests). intros m Hm.
  unfold getHandlerForRequest, geminiNativeHandler. cbv zeta.
  generalize (resolveTarget toLowerCase cfg requestedModel). intros target.
  destruct (monitorMode cfg), (truthyStr (geminiApiKey cfg)), (useGeminiNative cfg),
    (includes (js "gemini") target || includes (js "google/") target),
    (includes (js "/") target) eqn:Hslash;
    cbn [negb fst snd]; try discriminate;
    (intros Ht;
     pose proof (getOpenRouterHandler_recorded target m) as Hrec;
     rewrite (proj1 (getOpenRouterHandler_wellKeyed target Hm)) in Ht, Hrec;
     injection Ht as <-; repeat split; assumption).
Qed.

Lemma X6_aggregator_handler_target_witness :
  let cfg := {| model := None; monitorMode := false; geminiApiKey := None;
                useGeminiNative := false;
                modelMap := Some {| opus := Some (js "openai/gpt-5"); sonnet := None;
                                    haiku := None; subagent := None |} |} in
  js "openai/gpt-5" = resolveTarget asciiToLowerCase cfg (js "claude-3-opus-20240229")
  /\ includes (js "/") (js "openai/gpt-5") = true.
Proof.
  intros cfg.
  destruct (@X6_aggregator_handler_target asciiToLowerCase cfg []
              (js "claude-3-opus-20240229") (js "openai/gpt-5") eq_refl)
    as (_ & Htarget & Hslash & _).
  split; assumption.
Defined.

Lemma andAlso_some (b : bool) (o : option jsstring) (s : jsstring) :
  andAlso b o = Some s -> o = Some s /\ nonEmpty s = true.
Proof.
  unfold andAlso. destruct o as [s'|]; [|discriminate].
  destruct b, (nonEmpty s') eqn:E; cbn; try discriminate.
  intros H. injection H as <-. now split.
Qed.

(** With a default model, the resolved target is a model the configuration names. *)
Lemma resolveTarget_configured (toLowerCase : jsstring -> jsstring)
    (cfg : ProxyConfig) (requestedModel : jsstring) :
  truthyStr (model cfg) = true ->
  In (Some (resolveTarget toLowerCase cfg requestedModel)) (configuredModels cfg)
  /\ nonEmpty (resolveTarget toLowerCase cfg requestedModel) = true.
Proof.
  intros Hmodel. unfold resolveTarget, configuredModels, orElse.
  destruct (model cfg) as [d|]; [|discriminate]. cbn in Hmodel. rewrite Hmodel.
  destruct (modelMap cfg) as [mm|]; [|split; [now left | exact Hmodel]].
  destruct (andAlso _ (opus mm)) as [s|] eqn:Eo;
    [apply andAlso_some in Eo; destruct Eo as [-> ?]; split; [cbn; tauto | assumption]|].
  destruct (andAlso _ (sonnet mm)) as [s|] eqn:Es;
    [apply andAlso_some in Es; destruct Es as [-> ?]; split; [cbn; tauto | assumption]|].
  destruct (andAlso _ (haiku mm)) as [s|] eqn:Eh;
    [apply andAlso_some in Eh; destruct Eh as [-> ?]; split; [cbn; tauto | assumption]|].
  split; [now left | exact Hmodel].
Qed.

Lemma warmUp_keeps (o : option jsstring) (k : jsstring) (m : HandlerMap) :
  handlersGet k m <> None -> handlersGet k (warmUp o m) <> None.
Proof.
  intros Hk. unfold warmUp. destruct o as [t|]; [|exact Hk].
  destruct (nonEmpty t); [|exact Hk]. unfold getOpenRouterHandler.
  destruct (handlersGet t m); cbn [snd]; [exact Hk|].
  rewrite handlersGet_app. now destruct (handlersGet k m).
Qed.

Lemma warmUp_adds (t : jsstring) (m : HandlerMap) :
  nonEmpty t = true -> handlersGet t (warmUp (Some t) m) <> None.
Proof.
  intros Ht. unfold warmUp. rewrite Ht, getOpenRouterHandler_recorded. discriminate.
Qed.

Lemma initialHandlers_warm (cfg : ProxyConfig) (t : jsstring) :
  In (Some t) (configuredModels cfg) ->
  nonEmpty t = true ->
  handlersGet t (initialHandlers cfg) <> None.
Proof.
  unfold configuredModels, initialHandlers. intros Hin Ht.
  destruct (modelMap cfg) as [mm|]; cbn [In] in Hin.
  - destruct Hin as [H|[H|[H|[H|[H|[]]]]]]; rewrite H;
      repeat first [ now apply warmUp_adds | apply warmUp_keeps ].
  - destruct Hin as [H|[]]. rewrite H. now apply warmUp_adds.
Qed.

Lemma getHandlerForRequest_known (toLowerCase : jsstring -> jsstring)
    (cfg : ProxyConfig) (m : HandlerMap) (requestedModel : jsstring) :
  handlersGet (resolveTarget toLowerCase cfg requestedModel) m <> None ->
  snd (getHandlerForRequest toLowerCase cfg m requestedModel) = m.
Proof.
  unfold getHandlerForRequest. cbv zeta.
  generalize (resolveTarget toLowerCase cfg requestedModel). intros target Hknown.
  destruct (monitorMode cfg), (geminiNativeHandler cfg), (useGeminiNative cfg),
    (includes (js "gemini") target || includes (js "google/") target),
    (negb (includes (js "/") target));
    try reflexivity;
    (unfold getOpenRouterHandler; destruct (handlersGet target m); [reflexivity | contradiction]).
Qed.

(** X7. With a default model configured, every target a request resolves
    to got its handler when the server was made: however many requests are
    served, the handler map stays the one of the start. *)
Theorem X7_warm_map_never_grows (toLowerCase : jsstring -> jsstring)
    (cfg : ProxyConfig) (requests : list jsstring) :
  truthyStr (model cfg) = true ->
  servedHandlers toLowerCase cfg requests = initialHandlers cfg.
Proof.
  intros Hmodel. induction requests as [|r requests IH] using rev_ind; [reflexivity|].
  rewrite servedHandlers_snoc, IH.
  apply getHandlerForRequest_known.
  destruct (resolveTarget_configured toLowerCase cfg r Hmodel) as [Hin Hne].
  now apply initialHandlers_warm.
Qed.

Lemma X7_warm_map_never_grows_witness :
  let cfg := {| model := Some (js "x-ai/grok-code-fast-1"); monitorMode := false;
                geminiApiKey := None; useGeminiNative := false;
                modelMap := Some {| opus := Some (js "openai/gpt-5"); sonnet := None;
                                    haiku := None; subagent := None |} |} in
  truthyStr (model cfg) = true /\
  servedHandlers asciiToLowerCase cfg [js "claude-3-opus"; js "claude-3-haiku"; js "a/b"]
  = initialHandlers cfg.
Proof.
  intros cfg. split; [reflexivity|].
  apply (@X7_warm_map_never_grows asciiToLowerCase cfg); reflexivity.
Defined.

(* ================================================================== *)
(** * Further properties: the canonical stream *)
(* ================================================================== *)

Lemma deltaTexts_app (a b : list Frame) : deltaTexts (a ++ b) = deltaTexts a ++ deltaTexts b.
Proof.
  induction a as [|f a IH]; [reflexivity|]. destruct f; cbn; rewrite ?IH; reflexivity.
Qed.

Lemma startedBlocks_app (a b : list Frame) :
  startedBlocks (a ++ b) = startedBlocks a ++ startedBlocks b.
Proof.
  induction a as [|f a IH]; [reflexivity|]. destruct f; cbn; rewrite ?IH; reflexivity.
Qed.

Lemma stoppedBlocks_app (a b : list Frame) :
  stoppedBlocks (a ++ b) = stoppedBlocks a ++ stoppedBlocks b.
Proof.
  induction a as [|f a IH]; [reflexivity|]. destruct f; cbn; rewrite ?IH; reflexivity.
Qed.

Lemma deltas_of_chunks (i : N) (cs : list jsstring) :
  deltaTexts (map (ContentBlockDelta i) cs) = cs
  /\ startedBlocks (map (ContentBlockDelta i) cs) = []
  /\ stoppedBlocks (map (ContentBlockDelta i) cs) = [].
Proof.
  induction cs as [|c cs [IH1 [IH2 IH3]]]; cbn; [repeat split|].
  rewrite IH1. repeat split; assumption.
Qed.

Lemma textFrames_blocks (now : N) (m : jsstring) (cs : list jsstring) :
  deltaTexts (textFrames now m cs) = cs
  /\ startedBlocks (textFrames now m cs) = stoppedBlocks (textFrames now m cs).
Proof.
  destruct cs as [|c cs]; [split; reflexivity|]. unfold textFrames.
  destruct (deltas_of_chunks 0 (c :: cs)) as (Hd & Hs & Hp).
  cbn [app deltaTexts startedBlocks stoppedBlocks].
  rewrite deltaTexts_app, startedBlocks_app, stoppedBlocks_app, Hd, Hs, Hp.
  cbn. rewrite app_nil_r. split; reflexivity.
Qed.

Lemma toolUseFrames_blocks (tcs : list ToolCall) :
  forall k : N,
  deltaTexts (toolUseFrames k tcs) = []
  /\ startedBlocks (toolUseFrames k tcs) = stoppedBlocks (toolUseFrames k tcs).
Proof.
  induction tcs as [|tc tcs IH]; intros k; [split; reflexivity|].
  destruct (IH (k + 1)%N) as [Hd Hs]. cbn [toolUseFrames app deltaTexts startedBlocks stoppedBlocks].
  rewrite Hd, Hs. split; reflexivity.
Qed.

(** X8. When the handler fails, the stream carries what its chunks opened
    (message_start, the start of block 0 and one delta per chunk, or nothing
    without chunk), then a single server_error frame with the message of
    the error, and is closed: no stop of block 0, no message_delta, no
    message_stop and no terminator are sent. *)
Theorem X8_stream_error (now : N) (bodyModel : jsstring)
    (cs : list jsstring) (message : jsstring) :
  actions now bodyModel {| chunks := cs; outcome := Threw message |}
  = map Enqueue
      (match cs with
       | [] => []
       | _ :: _ => [MessageStart now bodyModel; ContentBlockStartText 0]
                   ++ map (ContentBlockDelta 0) cs
       end
       ++ [ServerError (js "Stream error: " ++ message)])
    ++ [Close].
Proof.
  apply actions_threw.
Qed.

(** X9. In every run, failed or not, the stream is closed once, by its last
    action, and the deltas enqueued before carry the chunks of the handler:
    one delta per chunk, in order, with the text unchanged. *)
Theorem X9_deltas_are_the_chunks (now : N) (bodyModel : jsstring) (run : HandlerRun) :
  exists fs : list Frame,
    actions now bodyModel run = map Enqueue fs ++ [Close]
    /\ deltaTexts fs = chunks run.
Proof.
  destruct run as [cs [r|message]]; cbn [chunks].
  - rewrite actions_returned. eexists. split; [reflexivity|].
    rewrite !deltaTexts_app, (proj1 (textFrames_blocks now bodyModel cs)).
    rewrite (proj1 (toolUseFrames_blocks (toolCalls r) 0)). cbn. now rewrite app_nil_r.
  - rewrite actions_threw. eexists. split; [reflexivity|].
    rewrite deltaTexts_app. cbn [deltaTexts]. rewrite app_nil_r.
    destruct cs as [|c cs]; [reflexivity|].
    cbn [app deltaTexts]. apply (deltas_of_chunks 0 (c :: cs)).
Qed.

(** X10. In a run that returns, the blocks stopped are the blocks started,
    in the same order: every block is stopped, and none is stopped that was
    not started. In a run that fails no block is stopped, so the text block,
    when chunks opened it, stays open. *)
Theorem X10_blocks_are_balanced (now : N) (bodyModel : jsstring) (cs : list jsstring) :
  (forall r : GenerationResult,
     let fs := frames (actions now bodyModel {| chunks := cs; outcome := Returned r |}) in
     stoppedBlocks fs = startedBlocks fs)
  /\ (forall message : jsstring,
        let fs := frames (actions now bodyModel {| chunks := cs; outcome := Threw message |}) in
        stoppedBlocks fs = []
        /\ startedBlocks fs = match cs with [] => [] | _ :: _ => [0%N] end).
Proof.
  split.
  - intros r fs. subst fs. rewrite actions_returned, frames_app, frames_enqueue.
    cbn [frames]. rewrite app_nil_r, !stoppedBlocks_app, !startedBlocks_app.
    rewrite (proj2 (textFrames_blocks now bodyModel cs)).
    rewrite (proj2 (toolUseFrames_blocks (toolCalls r) 0)). reflexivity.
  - intros message fs. subst fs. rewrite actions_threw, frames_app, frames_enqueue.
    cbn [frames]. rewrite app_nil_r, !stoppedBlocks_app, !startedBlocks_app.
    destruct cs as [|c cs]; [split; reflexivity|].
    destruct (deltas_of_chunks 0 (c :: cs)) as (_ & Hs & Hp).
    cbn [app stoppedBlocks startedBlocks].
    rewrite Hs, Hp. split; reflexivity.
Qed.

(* ================================================================== *)
(** * Further properties: the token count endpoint *)
(* ================================================================== *)

(** X11. In monitor mode every token count request whose body is not the
    JSON null is passed on to the Anthropic endpoint with its body, whatever
    model it names, even one that is no string; nothing is estimated and
    the handler map is left alone. *)
Theorem X11_count_tokens_monitor (toLowerCase : jsstring -> jsstring)
    (cfg : ProxyConfig) (handlers : HandlerMap) (body : json) :
  monitorMode cfg = true ->
  body <> JNull ->
  countTokens toLowerCase cfg handlers body = (Forwarded body, handlers).
Proof.
  intros Hmonitor Hbody. unfold countTokens.
  destruct body; try contradiction;
    (destruct (if truthy _ then _ else _) as [[| | |requestedModel| |]|];
     unfold getHandlerForRequest; rewrite ?Hmonitor; reflexivity).
Qed.

Lemma X11_count_tokens_monitor_witness :
  let cfg := {| model := Some (js "openai/gpt-5"); monitorMode := true; geminiApiKey := None;
                useGeminiNative := false; modelMap := None |} in
  let body := JObj [(js "model", JNum (js "7")); (js "messages", JArr [])] in
  monitorMode cfg = true /\
  countTokens asciiToLowerCase cfg [] body = (Forwarded body, []).
Proof.
  intros cfg body. split; [reflexivity|].
  apply (@X11_count_tokens_monitor asciiToLowerCase cfg [] body); [reflexivity | discriminate].
Defined.

Lemma stringify_empty (v : json) : JSON_stringify v = [] -> v = JNum [].
Proof.
  destruct v as [|[|]|l|s|l|m]; cbn; try discriminate. now intros ->.
Qed.

(** X12. An estimate is only given outside monitor mode, and it is the
    length of the serialized body divided by 4 and rounded up: at least 1
    for every body that [JSON.parse] can give. *)
Theorem X12_count_tokens_estimate (toLowerCase : jsstring -> jsstring)
    (cfg : ProxyConfig) (handlers handlers' : HandlerMap) (body : json) (n : N) :
  countTokens toLowerCase cfg handlers body = (Estimated n, handlers') ->
  let len := N.of_nat (length (JSON_stringify body)) in
  monitorMode cfg = false
  /\ (len <= 4 * n < len + 4)%N
  /\ (body = JNum [] \/ (1 <= n)%N).
Proof.
  intros Hcount len.
  assert (Hn : n = ceilDiv4 len /\ monitorMode cfg = false).
  { unfold countTokens in Hcount.
    destruct (monitorMode cfg) eqn:Hmonitor.
    - destruct body; try discriminate Hcount;
        (destruct (if truthy _ then _ else _) as [[| | |requestedModel| |]|];
         try discriminate Hcount;
         unfold getHandlerForRequest in Hcount; rewrite Hmonitor in Hcount;
         discriminate Hcount).
    - split; [|reflexivity].
      destruct body; try discriminate Hcount;
        (destruct (if truthy _ then _ else _) as [[| | |requestedModel| |]|];
         try discriminate Hcount;
         destruct (getHandlerForRequest _ _ _ _) as [[| |t] hs];
         try discriminate Hcount; now injection Hcount as <- _). }
  destruct Hn as [-> Hmonitor]. split; [exact Hmonitor|].
  pose proof (ceilDiv4_ceiling len) as Hceil. split; [exact Hceil|].
  destruct (JSON_stringify body) as [|c text] eqn:E.
  - left. now apply stringify_empty.
  - right. subst len. cbn [length] in *. lia.
Qed.

Lemma X12_count_tokens_estimate_witness :
  let cfg := {| model := None; monitorMode := false; geminiApiKey := Some (js "key");
                useGeminiNative := true; modelMap := None |} in
  let body := JObj [(js "model", JStr (js "claude-3-haiku")); (js "messages", JArr [])] in
  countTokens asciiToLowerCase cfg [] body = (Estimated 10, [])
  /\ monitorMode cfg = false.
Proof.
  intros cfg body.
  assert (Hcount : countTokens asciiToLowerCase cfg [] body = (Estimated 10, []))
    by (vm_compute; reflexivity).
  split; [exact Hcount|].
  exact (proj1 (@X12_count_tokens_estimate asciiToLowerCase cfg [] [] body 10%N Hcount)).
Defined.

(** X13. A token count request whose body is the JSON null, or, outside
    monitor mode, whose model is a truthy value that is no string, is
    answered with the error of the route; the handler map is left alone. *)
Theorem X13_count_tokens_error (toLowerCase : jsstring -> jsstring)
    (cfg : ProxyConfig) (handlers : HandlerMap) (body v : json) :
  body = JNull
  \/ (monitorMode cfg = false
      /\ get "model" body = Some v
      /\ truthy (Some v) = true
      /\ match v with JStr _ => False | _ => True end) ->
  countTokens toLowerCase cfg handlers body = (CountTokensError, handlers).
Proof.
  intros [->|(Hmonitor & Hmodel & Htruthy & Hv)]; [reflexivity|].
  unfold countTokens. rewrite Hmodel, Htruthy, Hmonitor.
  destruct body; try discriminate Hmodel; destruct v; try contradiction; reflexivity.
Qed.

Lemma X13_count_tokens_error_witness :
  let cfg := {| model := None; monitorMode := false; geminiApiKey := None;
                useGeminiNative := false; modelMap := None |} in
  countTokens asciiToLowerCase cfg [] (JObj [(js "model", JArr [])]) = (CountTokensError, []).
Proof.
  intros cfg.
  apply (@X13_count_tokens_error asciiToLowerCase cfg [] (JObj [(js "model", JArr [])]) (JArr [])).
  right. repeat split.
Defined.

(* ================================================================== *)
(** * Further properties: the lines of the aggregator stream *)
(* ================================================================== *)

Lemma existsb_lf_app (a b : jsstring) :
  existsb (N.eqb 10%N) (a ++ b) = existsb (N.eqb 10%N) a || existsb (N.eqb 10%N) b.
Proof. apply existsb_app. Qed.

Lemma startsWith_skipn (p l : jsstring) :
  startsWith p l = true -> l = p ++ skipn (length p) l.
Proof.
  revert l. induction p as [|x p IH]; intros [|y l]; cbn; try discriminate; try reflexivity.
  intros E. apply andb_prop in E. destruct E as [Exy Epl].
  apply N.eqb_eq in Exy. subst y. f_equal. now apply IH.
Qed.

(** The only line that ends the loop is the end marker itself. *)
Lemma end_marker_line (l : jsstring) :
  startsWith (js "data: ") l = true ->
  jsstring_eqb (slice_from 6 l) (js "[DONE]") = true ->
  l = js "data: [DONE]".
Proof.
  intros Hdata Hdone. apply startsWith_skipn in Hdata.
  apply jsstring_eqb_eq in Hdone. unfold slice_from in Hdone.
  change (length (js "data: ")) with 6 in Hdata. rewrite Hdone in Hdata. exact Hdata.
Qed.

Section LineFacts.

Context `{Collaborators}.

Lemma processLines_stepped_over (line : jsstring) (before after : list jsstring) :
  steppedOver line ->
  forall st : StreamState,
  processLines st (before ++ line :: after) = processLines st (before ++ after).
Proof.
  intros Hline. induction before as [|l before IH]; intros st; [apply Hline|].
  cbn [app processLines].
  destruct (negb (nonEmpty (trim l)) || negb (startsWith (js "data: ") l)); [apply IH|].
  destruct (jsstring_eqb (slice_from 6 l) (js "[DONE]")); [reflexivity | apply IH].
Qed.

Lemma readLoop_stepped_over (a line b : jsstring) (post : list jsstring) :
  steppedOver line ->
  existsb (N.eqb 10%N) line = false ->
  forall (pre : list jsstring) (st : StreamState) (buffer : jsstring),
  last (split 10%N (buffer ++ concat pre ++ a)) [] = [] ->
  readLoop st buffer (pre ++ (a ++ line ++ [10%N] ++ b) :: post)
  = readLoop st buffer (pre ++ (a ++ b) :: post).
Proof.
  intros Hover Hline. induction pre as [|v pre IH]; intros st buffer Hstart.
  - cbn [app concat] in *. cbn [readLoop].
    destruct (split_line_inserted 10%N (buffer ++ a) line b Hline Hstart) as [E1 E2].
    rewrite <- app_assoc in E1, E2. cbn [app] in E1.
    unfold jsstring, code_unit in *. rewrite E1, E2.
    pose proof (split_nonempty 10%N b) as Hne.
    rewrite (removelast_app _ (l' := line :: split 10%N b)) by discriminate.
    rewrite (removelast_app _ Hne).
    rewrite (last_app_nonempty _ [] (l' := line :: split 10%N b)) by discriminate.
    rewrite (last_app_nonempty _ [] Hne).
    cbn [removelast last]. destruct (split 10%N b) as [|l0 ls0] eqn:E; [contradiction|].
    rewrite processLines_stepped_over by assumption. reflexivity.
  - cbn [app readLoop]. apply IH.
    cbn [concat] in Hstart.
    replace (buffer ++ (v ++ concat pre) ++ a)
      with ((buffer ++ v) ++ concat pre ++ a) in Hstart by now rewrite <- !app_assoc.
    rewrite split_app in Hstart.
    rewrite last_app_nonempty in Hstart by apply split_nonempty. exact Hstart.
Qed.

Lemma handler_stepped_over (pre post : list jsstring) (a line b : jsstring)
    (f : option jsstring) :
  steppedOver line ->
  existsb (N.eqb 10%N) line = false ->
  endsLine (concat pre ++ a) = true ->
  handleStreamingResponse
    {| reads := pre ++ (a ++ line ++ [10%N] ++ b) :: post; failure := f |}
  = handleStreamingResponse {| reads := pre ++ (a ++ b) :: post; failure := f |}.
Proof.
  intros Hover Hline Hstart. unfold handleStreamingResponse. cbn [reads failure].
  rewrite readLoop_stepped_over; [reflexivity | assumption | assumption |].
  now apply endsLine_last.
Qed.

End LineFacts.

(** X14. A line that does not start with [data: ] (an empty line, a
    comment such as a keep-alive, an [event:] line), received on a line of
    its own, changes nothing: the run of the handler is the one of the
    stream without that line. *)
Theorem X14_other_lines_are_ignored `{Collaborators}
    (pre post : list jsstring) (a line b : jsstring) (f : option jsstring) :
  startsWith (js "data: ") line = false ->
  existsb (N.eqb 10%N) line = false ->
  endsLine (concat pre ++ a) = true ->
  handleStreamingResponse
    {| reads := pre ++ (a ++ line ++ [10%N] ++ b) :: post; failure := f |}
  = handleStreamingResponse {| reads := pre ++ (a ++ b) :: post; failure := f |}.
Proof.
  intros Hdata. apply handler_stepped_over.
  intros st rest. cbn [processLines]. rewrite Hdata.
  now rewrite orb_true_r.
Qed.

Lemma X14_other_lines_are_ignored_witness :
  let line := js ": OPENROUTER PROCESSING" in
  let a := dataLine (textDelta "He") in
  let b := dataLine (textDelta "llo") ++ doneLine in
  startsWith (js "data: ") line = false /\
  @handleStreamingResponse noMiddleware
    {| reads := [a ++ line ++ [10%N] ++ b]; failure := None |}
  = @handleStreamingResponse noMiddleware {| reads := [a ++ b]; failure := None |}.
Proof.
  intros line a b. split; [reflexivity|].
  apply (@X14_other_lines_are_ignored noMiddleware [] [] a line b None); reflexivity.
Defined.

(** X15. A data line whose payload is JSON without a truthy
    [choices[0].delta] (a chunk that only reports usage, an empty list of
    choices, the JSON null), received on a line of its own, changes nothing:
    the middleware is not called for it and the run of the handler is the
    one of the stream without that line. *)
Theorem X15_chunks_without_delta_are_ignored `{Collaborators}
    (pre post : list jsstring) (a line b : jsstring) (f : option jsstring) (chunk : json) :
  JSON_parse (slice_from 6 line) = Some chunk ->
  truthy (getOpt "delta" (index0 (get "choices" chunk))) = false ->
  existsb (N.eqb 10%N) line = false ->
  endsLine (concat pre ++ a) = true ->
  handleStreamingResponse
    {| reads := pre ++ (a ++ line ++ [10%N] ++ b) :: post; failure := f |}
  = handleStreamingResponse {| reads := pre ++ (a ++ b) :: post; failure := f |}.
Proof.
  intros Hparse Hdelta. apply handler_stepped_over.
  intros st rest. cbn [processLines].
  destruct (negb (nonEmpty (trim line)) || negb (startsWith (js "data: ") line)) eqn:Hfilter;
    [reflexivity|].
  destruct (jsstring_eqb (slice_from 6 line) (js "[DONE]")) eqn:Hdone.
  - apply jsstring_eqb_eq in Hdone. rewrite Hdone in Hparse. discriminate Hparse.
  - unfold processData. rewrite Hparse. unfold processChunk. rewrite Hdelta.
    now destruct chunk.
Qed.

Lemma X15_chunks_without_delta_are_ignored_witness :
  let line := jsq "data: {'choices':[],'usage':{'prompt_tokens':12,'completion_tokens':3}}" in
  let a := dataLine (textDelta "He") in
  let b := dataLine (textDelta "llo") ++ doneLine in
  existsb (N.eqb 10%N) line = false /\
  @handleStreamingResponse noMiddleware
    {| reads := [a ++ line ++ [10%N] ++ b]; failure := None |}
  = @handleStreamingResponse noMiddleware {| reads := [a ++ b]; failure := None |}.
Proof.
  intros line a b. split; [reflexivity|].
  eapply (@X15_chunks_without_delta_are_ignored noMiddleware [] [] a line b None);
    [vm_compute; reflexivity | reflexivity | reflexivity | reflexivity].
Defined.

Section ReadFacts.

Context `{Collaborators}.

(** The end marker ends the loop over the lines of its read. *)
Lemma processLines_end_marker (before after : list jsstring) :
  forall st : StreamState,
  processLines st (before ++ js "data: [DONE]" :: after) = processLines st before.
Proof.
  induction before as [|l before IH]; intros st.
  - reflexivity.
  - cbn [app processLines].
    destruct (negb (nonEmpty (trim l)) || negb (startsWith (js "data: ") l)); [apply IH|].
    destruct (jsstring_eqb (slice_from 6 l) (js "[DONE]")); [reflexivity | apply IH].
Qed.

Lemma readLoop_end_marker (a b : jsstring) (post : list jsstring) :
  last (split 10%N b) [] = [] ->
  forall (pre : list jsstring) (st : StreamState) (buffer : jsstring),
  last (split 10%N (buffer ++ concat pre ++ a)) [] = [] ->
  readLoop st buffer (pre ++ (a ++ doneLine ++ b) :: post)
  = readLoop st buffer (pre ++ a :: post).
Proof.
  intros Hb. induction pre as [|v pre IH]; intros st buffer Hstart.
  - cbn [app concat] in *. cbn [readLoop].
    assert (Hmarker : existsb (N.eqb 10%N) (js "data: [DONE]") = false) by reflexivity.
    destruct (split_line_inserted 10%N (buffer ++ a) (js "data: [DONE]") b Hmarker Hstart)
      as [E1 _].
    rewrite <- app_assoc in E1. cbn [app] in E1.
    unfold doneLine. rewrite <- !app_assoc. cbn [app].
    unfold jsstring, code_unit in *. rewrite E1.
    pose proof (split_nonempty 10%N b) as Hne.
    change (js "data: [DONE]" :: split 10%N b) with ([js "data: [DONE]"] ++ split 10%N b).
    rewrite !app_assoc.
    rewrite (removelast_app _ Hne), (last_app_nonempty _ [] Hne).
    rewrite <- app_assoc. cbn [app].
    rewrite processLines_end_marker. f_equal.
    transitivity (@nil N); [exact Hb | symmetry; exact Hstart].
  - cbn [app readLoop]. apply IH.
    cbn [concat] in Hstart.
    replace (buffer ++ (v ++ concat pre) ++ a)
      with ((buffer ++ v) ++ concat pre ++ a) in Hstart by now rewrite <- !app_assoc.
    rewrite split_app in Hstart.
    rewrite last_app_nonempty in Hstart by apply split_nonempty. exact Hstart.
Qed.

(** A last read without line feed only extends the unfinished line. *)
Lemma readLoop_unfinished (tail : jsstring) :
  existsb (N.eqb 10%N) tail = false ->
  forall (reads : list jsstring) (st : StreamState) (buffer : jsstring),
  existsb (N.eqb 10%N) buffer = false ->
  readLoop st buffer (reads ++ [tail]) = readLoop st buffer reads.
Proof.
  intros Htail rs. induction rs as [|v rs IH]; intros st buffer Hbuffer.
  - cbn [app readLoop].
    assert (Hline : existsb (N.eqb 10%N) (buffer ++ tail) = false).
    { rewrite existsb_app. apply orb_false_intro; assumption. }
    rewrite (split_without_separator _ _ Hline). reflexivity.
  - cbn [app readLoop]. apply IH. apply last_piece.
Qed.

Lemma processLines_app (l1 l2 : list jsstring) :
  existsb (jsstring_eqb (js "data: [DONE]")) l1 = false ->
  forall st : StreamState,
  processLines st (l1 ++ l2) = processLines (processLines st l1) l2.
Proof.
  induction l1 as [|l l1 IH]; intros Hno st; [reflexivity|].
  cbn [existsb] in Hno. apply orb_false_elim in Hno. destruct Hno as [Hl Hl1].
  cbn [app processLines].
  destruct (negb (nonEmpty (trim l)) || negb (startsWith (js "data: ") l)) eqn:Hfilter;
    [now apply IH|].
  destruct (jsstring_eqb (slice_from 6 l) (js "[DONE]")) eqn:Hdone; [|now apply IH].
  apply orb_false_elim in Hfilter. destruct Hfilter as [_ Hdata].
  apply negb_false_iff in Hdata.
  rewrite (end_marker_line l Hdata Hdone), jsstring_eqb_refl in Hl. discriminate Hl.
Qed.

(** Without end marker, the reads are processed as the complete lines of
    their whole text. *)
Lemma readLoop_lines (reads : list jsstring) :
  forall (st : StreamState) (buffer : jsstring),
  existsb (N.eqb 10%N) buffer = false ->
  existsb (jsstring_eqb (js "data: [DONE]"))
    (removelast (split 10%N (buffer ++ concat reads))) = false ->
  readLoop st buffer reads
  = processLines st (removelast (split 10%N (buffer ++ concat reads))).
Proof.
  induction reads as [|v reads IH]; intros st buffer Hbuffer Hno.
  - cbn [concat readLoop]. rewrite app_nil_r.
    now rewrite (split_without_separator _ _ Hbuffer).
  - cbn [concat readLoop] in *.
    pose proof (split_app 10%N (buffer ++ v) (concat reads)) as E.
    rewrite <- app_assoc in E.
    pose proof (split_nonempty 10%N (last (split 10%N (buffer ++ v)) [] ++ concat reads)) as Hne.
    unfold jsstring, code_unit in *.
    rewrite E, (removelast_app _ Hne) in Hno. rewrite E, (removelast_app _ Hne).
    rewrite existsb_app in Hno. apply orb_false_elim in Hno. destruct Hno as [Hno1 Hno2].
    rewrite (processLines_app _ _ Hno1).
    apply IH; [apply last_piece | exact Hno2].
Qed.

(** Reads one after the other: the state and the unfinished line go on. *)
Lemma readLoop_app (r1 r2 : list jsstring) :
  forall (st : StreamState) (buffer : jsstring),
  readLoop st buffer (r1 ++ r2) = readLoop (readLoop st buffer r1) (bufferAfter buffer r1) r2.
Proof.
  induction r1 as [|v r1 IH]; intros st buffer; [reflexivity|].
  cbn [app readLoop bufferAfter]. apply IH.
Qed.

End ReadFacts.

(** X16. Complete lines that follow the end marker in the same read are
    dropped, and the marker itself does not end the stream: a read in which
    the marker is followed by complete lines gives the run of the same
    stream without the marker and without those lines, and the reads that
    come later are processed as usual. *)
Theorem X16_end_marker_ends_its_read_only `{Collaborators}
    (pre post : list jsstring) (a b : jsstring) (f : option jsstring) :
  endsLine (concat pre ++ a) = true ->
  endsLine b = true ->
  handleStreamingResponse {| reads := pre ++ (a ++ doneLine ++ b) :: post; failure := f |}
  = handleStreamingResponse {| reads := pre ++ a :: post; failure := f |}.
Proof.
  intros Ha Hb. unfold handleStreamingResponse. cbn [reads failure].
  rewrite readLoop_end_marker; [reflexivity | now apply endsLine_last |].
  now apply endsLine_last.
Qed.

Lemma X16_end_marker_ends_its_read_only_witness :
  let a := dataLine (textDelta "He") in
  let b := dataLine (textDelta "lost") in
  let post := [dataLine (textDelta "llo")] in
  endsLine b = true /\
  chunks (@handleStreamingResponse noMiddleware
            {| reads := (a ++ doneLine ++ b) :: post; failure := None |})
  = [js "He"; js "llo"].
Proof.
  intros a b post. split; [reflexivity|].
  transitivity
    (chunks (@handleStreamingResponse noMiddleware {| reads := a :: post; failure := None |}));
    [|vm_compute; reflexivity].
  apply f_equal.
  apply (@X16_end_marker_ends_its_read_only noMiddleware [] post a b None); reflexivity.
Defined.

(** X17. A last read without line feed is never processed: what the
    stream ends with after its last line feed, were it a whole data line,
    leaves the run of the handler as it was. *)
Theorem X17_unfinished_last_line_is_lost `{Collaborators}
    (received : list jsstring) (tail : jsstring) (f : option jsstring) :
  existsb (N.eqb 10%N) tail = false ->
  handleStreamingResponse {| reads := received ++ [tail]; failure := f |}
  = handleStreamingResponse {| reads := received; failure := f |}.
Proof.
  intros Htail. unfold handleStreamingResponse. cbn [reads failure].
  now rewrite readLoop_unfinished.
Qed.

Lemma X17_unfinished_last_line_is_lost_witness :
  let tail := jsq "data: {'choices':[{'delta':{'content':'llo'}}]}" in
  existsb (N.eqb 10%N) tail = false /\
  chunks (@handleStreamingResponse noMiddleware
            {| reads := [dataLine (textDelta "He")] ++ [tail]; failure := None |})
  = [js "He"].
Proof.
  intros tail. split; [reflexivity|].
  transitivity
    (chunks (@handleStreamingResponse noMiddleware
               {| reads := [dataLine (textDelta "He")]; failure := None |}));
    [|vm_compute; reflexivity].
  apply f_equal.
  apply (@X17_unfinished_last_line_is_lost noMiddleware [dataLine (textDelta "He")] tail None).
  reflexivity.
Defined.

(** X18. Without end marker among its complete lines, a stream gives the
    same run however the transport cuts its text into reads: two lists of
    reads with the same whole text give the same calls of onChunk and the
    same result. *)
Theorem X18_reads_may_be_cut_anywhere `{Collaborators}
    (reads1 reads2 : list jsstring) (f : option jsstring) :
  concat reads1 = concat reads2 ->
  existsb (jsstring_eqb (js "data: [DONE]")) (removelast (split 10%N (concat reads1))) = false ->
  handleStreamingResponse {| reads := reads1; failure := f |}
  = handleStreamingResponse {| reads := reads2; failure := f |}.
Proof.
  intros Hsame Hno. unfold handleStreamingResponse. cbn [reads failure].
  rewrite (readLoop_lines reads1 initialState [] eq_refl Hno).
  rewrite Hsame in Hno.
  rewrite (readLoop_lines reads2 initialState [] eq_refl Hno).
  cbn [app]. now rewrite Hsame.
Qed.

Lemma X18_reads_may_be_cut_anywhere_witness :
  let text := dataLine (textDelta "He") ++ dataLine (textDelta "llo") in
  let reads1 := [firstn 10 text; skipn 10 text] in
  let reads2 := [firstn 45 text; firstn 3 (skipn 45 text); skipn 48 text] in
  concat reads1 = concat reads2 /\
  @handleStreamingResponse noMiddleware {| reads := reads1; failure := None |}
  = @handleStreamingResponse noMiddleware {| reads := reads2; failure := None |}.
Proof.
  intros text reads1 reads2. split; [reflexivity|].
  apply (@X18_reads_may_be_cut_anywhere noMiddleware reads1 reads2 None); reflexivity.
Defined.

(* ================================================================== *)
(** * Further properties: what the aggregator stream keeps *)
(* ================================================================== *)

(** X19. The text of the result is the text handed to onChunk: the
    concatenation of the chunks, in order. *)
Theorem X19_result_text_is_streamed_text `{Collaborators} (body : ResponseBody) :
  match outcome (handleStreamingResponse body) with
  | Returned r => fullContent r = concat (chunks (handleStreamingResponse body))
  | Threw _ => True
  end.
Proof.
  destruct (outcome (handleStreamingResponse body)) as [r|message] eqn:E; [|exact I].
  now apply fullContent_is_streamed.
Qed.

(** X20. At every point of a stream, [currentToolCall] is unset while no
    tool call is recorded, and is the tool call recorded last otherwise:
    argument fragments without name always go to the call named last. *)
Theorem X20_current_call_is_the_last `{Collaborators} (received : list jsstring) :
  let st := readLoop initialState [] received in
  match s_currentToolCall st with
  | None => s_toolCalls st = []
  | Some i => S i = length (s_toolCalls st)
  end.
Proof.
  apply (readLoop_consistent received (st := initialState) []).
  split; reflexivity.
Qed.

Ltac case_matches :=
  repeat match goal with
         | |- context [match ?x with _ => _ end] => destruct x eqn:?
         end.

Section Growth.

Context `{Collaborators}.

Lemma grows_refl (st : StreamState) : grows st st.
Proof. split; exists []; now rewrite app_nil_r. Qed.

Lemma grows_trans (a b c : StreamState) : grows a b -> grows b c -> grows a c.
Proof.
  intros [[c1 H1] [t1 G1]] [[c2 H2] [t2 G2]]. split.
  - exists (c1 ++ c2). now rewrite H2, H1, app_assoc.
  - exists (t1 ++ t2). now rewrite G2, G1, app_assoc.
Qed.

Lemma setArgs_identity (a : json) (l : list ToolCall) :
  forall i : nat, map callIdentity (setArgs i a l) = map callIdentity l.
Proof.
  induction l as [|t l IH]; intros i; destruct i as [|i]; cbn; rewrite ?IH; reflexivity.
Qed.

Lemma toolCallFragment_grows (st : StreamState) (tc : json) :
  grows st (fst (toolCallFragment st tc)).
Proof.
  unfold toolCallFragment, startToolCall, appendToolCall.
  case_matches; cbn [fst]; try apply grows_refl;
    (split; cbn [s_onChunk s_toolCalls];
     [exists []; now rewrite app_nil_r
     | rewrite ?setArgs_identity, ?map_app;
       first [ exists []; now rewrite app_nil_r | eexists; reflexivity ]]).
Qed.

Lemma toolCallFragments_grows (tcs : list json) :
  forall st : StreamState, grows st (fst (toolCallFragments st tcs)).
Proof.
  induction tcs as [|tc tcs IH]; intros st; [apply grows_refl|].
  cbn [toolCallFragments].
  pose proof (toolCallFragment_grows st tc) as Hstep.
  destruct (toolCallFragment st tc) as [st' [|]]; cbn [fst] in *; [|exact Hstep].
  eapply grows_trans; [exact Hstep | apply IH].
Qed.

Lemma processChunk_grows (st : StreamState) (chunk : json) :
  grows st (fst (processChunk st chunk)).
Proof.
  unfold processChunk.
  assert (Htext : forall s d, grows s (textOf s d)).
  { intros s d. unfold textOf. destruct (truthy (get "content" d)); [|apply grows_refl].
    split; cbn [s_onChunk s_toolCalls]; [eexists; reflexivity|].
    exists []. now rewrite app_nil_r. }
  assert (Htools : forall s d, grows s (fst (toolCallsOf s d))).
  { intros s d. unfold toolCallsOf.
    destruct (truthy (get "tool_calls" d)); [|apply grows_refl].
    destruct (get "tool_calls" d) as [[| | | |tcs|]|]; try apply grows_refl.
    apply toolCallFragments_grows. }
  destruct chunk; try apply grows_refl;
    (destruct (truthy _); [|apply grows_refl];
     destruct (getOpt "delta" _) as [d|]; [|apply grows_refl];
     destruct (afterStreamChunk _ d (s_streamMetadata st)) as [m [|]]; cbn [fst];
     [eapply grows_trans; [|apply Htools]; eapply grows_trans; [|apply Htext] |];
     (split; cbn [s_onChunk s_toolCalls]; exists []; now rewrite app_nil_r)).
Qed.

Lemma processLines_grows (lines : list jsstring) :
  forall st : StreamState, grows st (processLines st lines).
Proof.
  induction lines as [|line lines IH]; intros st; [apply grows_refl|].
  cbn [processLines].
  destruct (negb (nonEmpty (trim line)) || negb (startsWith (js "data: ") line)); [apply IH|].
  destruct (jsstring_eqb (slice_from 6 line) (js "[DONE]")); [apply grows_refl|].
  eapply grows_trans; [|apply IH]. unfold processData.
  destruct (JSON_parse (slice_from 6 line)); [apply processChunk_grows | apply grows_refl].
Qed.

Lemma readLoop_grows (received : list jsstring) :
  forall (st : StreamState) (buffer : jsstring), grows st (readLoop st buffer received).
Proof.
  induction received as [|v received IH]; intros st buffer; [apply grows_refl|].
  cbn [readLoop]. eapply grows_trans; [apply processLines_grows | apply IH].
Qed.

End Growth.

(** X21. What a stream has given is never taken back by what follows: the
    calls of onChunk made for the first reads stay, in order, and so do the
    tool calls recorded for them, with their ids and names; later reads only
    add chunks and tool calls and change arguments. *)
Theorem X21_later_reads_only_add `{Collaborators} (received later : list jsstring) :
  let before := handleStreamingResponse {| reads := received; failure := None |} in
  let after := handleStreamingResponse {| reads := received ++ later; failure := None |} in
  (exists more, chunks after = chunks before ++ more)
  /\ (exists more,
        map callIdentity (returnedToolCalls after)
        = map callIdentity (returnedToolCalls before) ++ more).
Proof.
  intros before after. subst before after.
  unfold handleStreamingResponse, returnedToolCalls. cbn [reads failure chunks outcome toolCalls].
  rewrite readLoop_app. apply readLoop_grows.
Qed.

(* ================================================================== *)
(** * Further properties: the native chat request *)
(* ================================================================== *)

Lemma geminiMessages_app (a b : list Message) :
  geminiMessages (a ++ b) = geminiMessages a ++ geminiMessages b.
Proof.
  unfold geminiMessages. now rewrite map_app, filter_app.
Qed.

(** The history sent depends on [geminiMessages] only. *)
Lemma geminiRequest_history (messages : list Message) (req : GeminiRequest) :
  geminiRequest messages = Some req ->
  history req = fst (takeLastUserMessage (geminiMessages messages)).
Proof.
  unfold geminiRequest.
  destruct (takeLastUserMessage (geminiMessages messages)) as [h lastText].
  destruct (truthyStr lastText).
  - destruct lastText; [|discriminate]. intros E. now injection E as <-.
  - destruct (rev messages); [discriminate|]. intros E. now injection E as <-.
Qed.

Lemma geminiRequest_none (messages : list Message) :
  geminiRequest messages = None <-> messages = [].
Proof.
  split; [|now intros ->].
  unfold geminiRequest.
  destruct (takeLastUserMessage (geminiMessages messages)) as [h lastText].
  destruct (truthyStr lastText) eqn:E.
  - destruct lastText; [discriminate | discriminate E].
  - destruct (rev messages) eqn:R; [|discriminate].
    intros _. apply (f_equal (@rev Message)) in R. now rewrite rev_involutive in R.
Qed.

(** X22. The request to Gemini fails with the TypeError of the fallback
    exactly when the list of messages is empty; any other list gives a
    history and something to send. *)
Theorem X22_gemini_request_fails_on_no_message (messages : list Message) :
  geminiRequest messages = None <-> messages = [].
Proof.
  apply geminiRequest_none.
Qed.

(** X23. The history sent to Gemini is made of the messages that are no
    system messages: a system message, wherever it stands among other
    messages, leaves the history as it is without it. *)
Theorem X23_gemini_history_ignores_system (before after : list Message) (msg : Message) :
  role msg = RoleSystem ->
  before ++ after <> [] ->
  option_map history (geminiRequest (before ++ msg :: after))
  = option_map history (geminiRequest (before ++ after)).
Proof.
  intros Hrole Hne.
  destruct (geminiRequest (before ++ msg :: after)) as [req1|] eqn:E1.
  - destruct (geminiRequest (before ++ after)) as [req2|] eqn:E2.
    + cbn. f_equal.
      rewrite (geminiRequest_history _ E1), (geminiRequest_history _ E2).
      now rewrite (geminiMessages_skips_system before after msg Hrole).
    + apply geminiRequest_none in E2. contradiction.
  - apply geminiRequest_none in E1.
    now destruct before.
Qed.

Lemma X23_gemini_history_ignores_system_witness :
  let user := {| role := RoleUser; content := Text (js "hi"); tool_calls := None;
                 tool_call_id := None |} in
  let answer := {| role := RoleAssistant; content := Text (js "hello"); tool_calls := None;
                   tool_call_id := None |} in
  let system := {| role := RoleSystem; content := Text (js "Be terse."); tool_calls := None;
                   tool_call_id := None |} in
  role system = RoleSystem /\
  option_map history (geminiRequest ([user] ++ system :: [answer; user]))
  = option_map history (geminiRequest ([user] ++ [answer; user])).
Proof.
  intros user answer system. split; [reflexivity|].
  apply (@X23_gemini_history_ignores_system [user] [answer; user] system);
    [reflexivity | discriminate].
Defined.

(** X24. When the last message is a user message with a text, the messages
    before it make the history and its text is what is sent; but when that
    text is empty, what is sent is the JSON text of the part made of it,
    [{"text":""}]. *)
Theorem X24_gemini_sends_last_user_text (before : list Message) (msg : Message) (s : jsstring) :
  role msg = RoleUser ->
  content msg = Text s ->
  geminiRequest (before ++ [msg])
  = Some {| history := geminiMessages before;
            prompt := Text (if nonEmpty s then s else jsq "{'text':''}") |}.
Proof.
  intros Hrole Hcontent. unfold geminiRequest.
  rewrite geminiMessages_app.
  assert (Hlast : geminiMessages [msg]
                  = [{| g_role := Some GeminiUser; g_parts := [JObj [(js "text", JStr s)]] |}]).
  { unfold geminiMessages, toGeminiMessage, toolCallParts, hasRole.
    cbn [map filter]. now rewrite Hrole, Hcontent. }
  rewrite Hlast. unfold takeLastUserMessage.
  rewrite rev_app_distr. cbn [rev app g_role g_parts map joinWith].
  rewrite rev_involutive.
  destruct s as [|c s]; reflexivity.
Qed.

Lemma X24_gemini_sends_last_user_text_witness :
  let msg := {| role := RoleUser; content := Text []; tool_calls := None;
                tool_call_id := None |} in
  role msg = RoleUser /\
  geminiRequest ([] ++ [msg]) = Some {| history := []; prompt := Text (jsq "{'text':''}") |}.
Proof.
  intros msg. split; [reflexivity|].
  apply (@X24_gemini_sends_last_user_text [] msg []); reflexivity.
Defined.

(* ================================================================== *)
(** * Further properties: the native chat response *)
(* ================================================================== *)

Section GeminiStreamFacts.

Variable generateUniqueId : nat -> jsstring.

Lemma numberedCalls_app (a b : list FunctionCall) :
  forall n : nat,
  numberedCalls generateUniqueId n (a ++ b)
  = numberedCalls generateUniqueId n a ++ numberedCalls generateUniqueId (n + length a) b.
Proof.
  induction a as [|fc a IH]; intros n; cbn [app numberedCalls length].
  - now rewrite Nat.add_0_r.
  - rewrite IH. now rewrite Nat.add_succ_r.
Qed.

(** The state after some function calls were recorded. *)
Lemma geminiParts_calls (parts : list GeminiPart) :
  forall st : GeminiState,
  geminiParts generateUniqueId st parts
  = {| gs_fullContent := gs_fullContent st;
       gs_toolCalls :=
         gs_toolCalls st ++ numberedCalls generateUniqueId (gs_ids st) (partCalls parts);
       gs_onChunk := gs_onChunk st;
       gs_ids := gs_ids st + length (partCalls parts) |}.
Proof.
  induction parts as [|part parts IH]; intros st.
  - destruct st. cbn. now rewrite app_nil_r, Nat.add_0_r.
  - cbn [geminiParts partCalls flat_map]. fold (partCalls parts).
    destruct (p_functionCall part) as [fc|]; rewrite IH; [|reflexivity].
    cbn. rewrite <- app_assoc. cbn. now rewrite Nat.add_succ_r.
Qed.

Lemma geminiCandidates_calls (candidates : list GeminiCandidate) :
  forall st : GeminiState,
  geminiCandidates generateUniqueId st candidates
  = {| gs_fullContent := gs_fullContent st;
       gs_toolCalls :=
         gs_toolCalls st
         ++ numberedCalls generateUniqueId (gs_ids st) (candidateCalls candidates);
       gs_onChunk := gs_onChunk st;
       gs_ids := gs_ids st + length (candidateCalls candidates) |}.
Proof.
  induction candidates as [|candidate candidates IH]; intros st.
  - destruct st. cbn. now rewrite app_nil_r, Nat.add_0_r.
  - cbn [geminiCandidates candidateCalls flat_map]. fold (candidateCalls candidates).
    destruct (c_parts candidate) as [parts|]; rewrite IH; [|reflexivity].
    rewrite geminiParts_calls. cbn.
    rewrite numberedCalls_app, length_app, <- app_assoc, Nat.add_assoc. reflexivity.
Qed.

Lemma geminiChunk_calls (st : GeminiState) (chunk : GeminiChunk) :
  geminiChunk generateUniqueId st chunk
  = {| gs_fullContent := gs_fullContent st ++ chunk_text chunk;
       gs_toolCalls :=
         gs_toolCalls st
         ++ numberedCalls generateUniqueId (gs_ids st) (chunkFunctionCalls chunk);
       gs_onChunk := gs_onChunk st ++ [chunk_text chunk];
       gs_ids := gs_ids st + length (chunkFunctionCalls chunk) |}.
Proof.
  unfold geminiChunk, chunkFunctionCalls.
  destruct (chunk_candidates chunk) as [candidates|].
  - rewrite geminiCandidates_calls. reflexivity.
  - cbn. now rewrite app_nil_r, Nat.add_0_r.
Qed.

Lemma geminiChunks_calls (cs : list GeminiChunk) :
  forall st : GeminiState,
  fold_left (geminiChunk generateUniqueId) cs st
  = {| gs_fullContent := gs_fullContent st ++ concat (map chunk_text cs);
       gs_toolCalls :=
         gs_toolCalls st
         ++ numberedCalls generateUniqueId (gs_ids st) (flat_map chunkFunctionCalls cs);
       gs_onChunk := gs_onChunk st ++ map chunk_text cs;
       gs_ids := gs_ids st + length (flat_map chunkFunctionCalls cs) |}.
Proof.
  induction cs as [|c cs IH]; intros st.
  - destruct st. cbn. now rewrite !app_nil_r, Nat.add_0_r.
  - cbn [fold_left map concat flat_map]. rewrite IH, geminiChunk_calls. cbn.
    rewrite numberedCalls_app, length_app, <- !app_assoc, Nat.add_assoc. reflexivity.
Qed.

(** X25. The Gemini handler calls onChunk once per chunk of the stream,
    with the text of the chunk, were it empty; when the stream ends well its
    result is the concatenation of those texts and one tool call per
    function call of the chunks, in the order of the chunks, their
    candidates and their parts, each with the next fresh identifier. *)
Theorem X25_gemini_run (response : GeminiResponse) :
  geminiGenerate generateUniqueId response
  = {| chunks := map chunk_text (g_chunks response);
       outcome :=
         match g_failure response with
         | Some message => Threw message
         | None =>
             Returned
               {| fullContent := concat (map chunk_text (g_chunks response));
                  toolCalls :=
                    numberedCalls generateUniqueId 0
                      (flat_map chunkFunctionCalls (g_chunks response));
                  reasoningDetails := [] |}
         end |}.
Proof.
  unfold geminiGenerate. rewrite geminiChunks_calls. reflexivity.
Qed.

(** X26. Through the Gemini handler a response with at least one chunk
    always opens the envelope: the stream starts with message_start and the
    start of block 0, has one delta per chunk, also for a chunk that only
    carries function calls and has the empty text, then the stop of block
    0, one block per function call, and the closing frames. *)
Theorem X26_gemini_stream_opens_the_envelope (now : N) (bodyModel : jsstring)
    (response : GeminiResponse) :
  g_chunks response <> [] ->
  g_failure response = None ->
  actions now bodyModel (geminiGenerate generateUniqueId response)
  = map Enqueue
      ([MessageStart now bodyModel; ContentBlockStartText 0]
       ++ map (ContentBlockDelta 0) (map chunk_text (g_chunks response))
       ++ [ContentBlockStop 0]
       ++ toolUseFrames 0
            (numberedCalls generateUniqueId 0 (flat_map chunkFunctionCalls (g_chunks response)))
       ++ closingFrames (length (concat (map chunk_text (g_chunks response)))))
    ++ [Close].
Proof.
  intros Hchunks Hok. unfold geminiGenerate. rewrite geminiChunks_calls, Hok.
  cbn [gs_onChunk gs_fullContent gs_toolCalls app].
  rewrite actions_returned. cbn [toolCalls].
  destruct (g_chunks response) as [|c cs]; [contradiction|].
  unfold textFrames. cbn [map]. rewrite <- !app_assoc. reflexivity.
Qed.

End GeminiStreamFacts.

Lemma X26_gemini_stream_opens_the_envelope_witness :
  let call := {| fc_name := JStr (js "get_weather");
                 fc_args := JObj [(js "city", JStr (js "Paris"))] |} in
  let response :=
    {| g_chunks := [{| chunk_text := [];
                       chunk_candidates :=
                         Some [{| c_parts := Some [{| p_functionCall := Some call |}] |}] |}];
       g_failure := None |} in
  g_chunks response <> [] /\
  actions 0 (js "gemini-2.0-flash") (geminiGenerate (fun n => decimal (N.of_nat n)) response)
  = [Enqueue (MessageStart 0 (js "gemini-2.0-flash"));
     Enqueue (ContentBlockStartText 0);
     Enqueue (ContentBlockDelta 0 []);
     Enqueue (ContentBlockStop 0);
     Enqueue (ContentBlockStartToolUse 1 (JStr (js "0")) (JStr (js "get_weather"))
                (JObj [(js "city", JStr (js "Paris"))]));
     Enqueue (ContentBlockStop 1);
     Enqueue (MessageDelta (js "end_turn") 1);
     Enqueue MessageStop;
     Enqueue Terminator;
     Close].
Proof.
  intros call response. split; [discriminate|].
  apply (@X26_gemini_stream_opens_the_envelope (fun n => decimal (N.of_nat n))
           0%N (js "gemini-2.0-flash") response); [discriminate | reflexivity].
Defined.

(* ================================================================== *)
(** * Further properties: the messages of a request *)
(* ================================================================== *)

Lemma keptMessage_system (msg : BodyMessage) :
  jsstring_eqb (bm_role msg) (js "system") = true -> keptMessage msg = [].
Proof.
  intros E. apply jsstring_eqb_eq in E. unfold keptMessage. now rewrite E.
Qed.

Lemma find_nonEmpty_falsy (o : option jsstring) (l : list jsstring) :
  truthyStr o = false ->
  find nonEmpty (match o with Some s => [s] | None => [] end ++ l) = find nonEmpty l.
Proof.
  destruct o as [s|]; cbn; [|reflexivity]. now intros ->.
Qed.

Lemma find_nonEmpty_truthy (o : option jsstring) (l l' : list jsstring) :
  truthyStr o = true ->
  find nonEmpty (match o with Some s => [s] | None => [] end ++ l)
  = find nonEmpty (match o with Some s => [s] | None => [] end ++ l').
Proof.
  destruct o as [s|]; cbn; [|discriminate]. now intros ->.
Qed.

(** The loop over the messages of the body, in words. *)
Lemma collectMessages_kept (msgs : list BodyMessage) :
  forall (sys : option jsstring) (acc : list Message),
  snd (collectMessages msgs sys acc) = acc ++ flat_map keptMessage msgs
  /\ find nonEmpty
       (match fst (collectMessages msgs sys acc) with Some s => [s] | None => [] end)
     = find nonEmpty
         (match sys with Some s => [s] | None => [] end
          ++ map (fun msg => systemText (bm_content msg))
               (filter (fun msg => jsstring_eqb (bm_role msg) (js "system")) msgs)).
Proof.
  induction msgs as [|msg msgs IH]; intros sys acc.
  - cbn. now rewrite !app_nil_r.
  - cbn [collectMessages filter flat_map].
    destruct (jsstring_eqb (bm_role msg) (js "system")) eqn:Es.
    + rewrite (keptMessage_system msg Es). cbn [app map].
      destruct (truthyStr sys) eqn:Et.
      * destruct (IH sys acc) as [Hout Hsys]. split; [exact Hout|].
        rewrite Hsys. now apply find_nonEmpty_truthy.
      * destruct (IH (Some (systemText (bm_content msg))) acc) as [Hout Hsys].
        split; [exact Hout|]. rewrite Hsys. now rewrite (find_nonEmpty_falsy _ _ Et).
    + unfold keptMessage at 1.
      destruct (jsstring_eqb (bm_role msg) (js "user"));
        [|destruct (jsstring_eqb (bm_role msg) (js "assistant"));
          [|destruct (jsstring_eqb (bm_role msg) (js "tool"))]];
        match goal with
        | |- context [collectMessages msgs sys ?acc'] =>
            destruct (IH sys acc') as [Hout Hsys]
        end;
        (split; [rewrite Hout, <- ?app_assoc; reflexivity | exact Hsys]).
Qed.

Lemma requestMessages_kept (body : RequestBody) :
  requestMessages body
  = match find nonEmpty (systemCandidates body) with
    | Some s => [systemMessage s]
    | None => []
    end
    ++ flat_map keptMessage match body_messages body with Some msgs => msgs | None => [] end.
Proof.
  unfold requestMessages, systemCandidates.
  set (initial := if truthyStr (body_system body) then body_system body else None).
  assert (Hinitial : forall l,
            find nonEmpty (match initial with Some s => [s] | None => [] end ++ l)
            = find nonEmpty (match body_system body with Some s => [s] | None => [] end ++ l)).
  { intros l. subst initial. destruct (truthyStr (body_system body)) eqn:Et; [reflexivity|].
    now rewrite (find_nonEmpty_falsy _ _ Et). }
  destruct (body_messages body) as [msgs|].
  - destruct (collectMessages_kept msgs initial []) as [Hout Hsys].
    rewrite Hinitial in Hsys. rewrite <- Hsys.
    destruct (collectMessages msgs initial []) as [sys' out]. cbn [fst snd] in *.
    subst out. cbn [app]. destruct sys' as [s|]; [|reflexivity].
    cbn [find]. destruct (nonEmpty s); reflexivity.
  - cbn [filter map flat_map]. rewrite <- (Hinitial []), !app_nil_r.
    destruct initial as [s|]; [|reflexivity].
    cbn [find]. destruct (nonEmpty s); reflexivity.
Qed.



(** The request to Gemini for a list of messages that ends with a user text. *)
Lemma geminiRequest_last_user (before : list Message) (msg : Message) (s : jsstring) :
  role msg = RoleUser ->
  content msg = Text s ->
  nonEmpty s = true ->
  geminiRequest (before ++ [msg])
  = Some {| history := geminiMessages before; prompt := Text s |}.
Proof.
  intros Hrole Hcontent Hs. unfold geminiRequest.
  rewrite geminiMessages_app.
  assert (Hlast : geminiMessages [msg]
                  = [{| g_role := Some GeminiUser; g_parts := [JObj [(js "text", JStr s)]] |}]).
  { unfold geminiMessages, toGeminiMessage, toolCallParts, hasRole.
    cbn [map filter]. now rewrite Hrole, Hcontent. }
  rewrite Hlast. unfold takeLastUserMessage.
  rewrite rev_app_distr. cbn [rev app g_role g_parts map joinWith].
  rewrite rev_involutive.
  destruct s as [|c s]; [discriminate Hs | reflexivity].
Qed.

(** X28. When a request with a system prompt ends with a user message that
    has a non-empty text, the system prompt is not sent to Gemini at all:
    the history is made of the messages before the last one that are kept,
    none of them a system message, and what is sent is the text of the last
    message. *)
Theorem X28_gemini_drops_the_system_prompt
    (body : RequestBody) (msgs : list BodyMessage) (lastMessage : BodyMessage)
    (system text : jsstring) :
  body_system body = Some system ->
  nonEmpty system = true ->
  body_messages body = Some (msgs ++ [lastMessage]) ->
  bm_role lastMessage = js "user" ->
  bm_content lastMessage = Text text ->
  nonEmpty text = true ->
  geminiRequest (requestMessages body)
  = Some {| history := geminiMessages (flat_map keptMessage msgs); prompt := Text text |}.
Proof.
  intros Hsystem Hne Hmsgs Hrole Hcontent Htext.
  rewrite requestMessages_kept. unfold systemCandidates.
  rewrite Hsystem, Hmsgs. cbn [app find]. rewrite Hne.
  rewrite flat_map_app. cbn [flat_map]. rewrite app_nil_r.
  unfold keptMessage at 2. rewrite Hrole, Hcontent. cbn [jsstring_eqb].
  change (jsstring_eqb (js "user") (js "user")) with true. cbv iota.
  change ([systemMessage system] ++ flat_map keptMessage msgs ++ ?l)
    with (systemMessage system :: flat_map keptMessage msgs ++ l).
  rewrite app_comm_cons.
  match goal with
  | |- geminiRequest (?before ++ [?msg]) = _ =>
      rewrite (@geminiRequest_last_user before msg text eq_refl eq_refl Htext)
  end.
  reflexivity.
Qed.

Lemma X28_gemini_drops_the_system_prompt_witness :
  let question := {| bm_role := js "user"; bm_content := Text (js "hi");
                     bm_tool_calls := None; bm_tool_call_id := None |} in
  let body := {| body_model := js "gemini-2.0-flash"; body_system := Some (js "Be terse.");
                 body_messages := Some ([] ++ [question]) |} in
  nonEmpty (js "Be terse.") = true /\
  geminiRequest (requestMessages body) = Some {| history := []; prompt := Text (js "hi") |}.
Proof.
  intros question body. split; [reflexivity|].
  apply (@X28_gemini_drops_the_system_prompt body [] question (js "Be terse.") (js "hi"));
    reflexivity.
Defined.

(* ================================================================== *)
(** * Further properties: the global configuration *)
(* ================================================================== *)

Lemma setConfigs_set (C : Type) (config : C) (configs : list C) :
  setConfigs (Some config) configs = Some config.
Proof.
  induction configs as [|c configs IH]; [reflexivity | exact IH].
Qed.

(** X29. The configuration is set once: before any call of setConfig,
    getConfig fails; after calls of setConfig, however many, getConfig
    gives the configuration of the first call, and one more call of
    setConfig throws and changes nothing. *)
Theorem X29_config_is_set_once (C : Type) (first : C) (others : list C) (again : C) :
  getConfig (setConfigs (@None C) []) = None
  /\ getConfig (setConfigs None (first :: others)) = Some first
  /\ setConfig (setConfigs None (first :: others)) again = (Some first, Thrown).
Proof.
  unfold setConfigs at 2 3. cbn [fold_left setConfig fst].
  fold (setConfigs (Some first) others). rewrite setConfigs_set.
  repeat split.
Qed.

(* ================================================================== *)
(** * Further properties: the Ollama adapter *)
(* ================================================================== *)

Lemma lookup_deleteMember (k : jsstring) (m : list (jsstring * json)) :
  lookup k (deleteMember k m) = None.
Proof.
  induction m as [|[k' v] m IH]; [reflexivity|].
  cbn [deleteMember]. destruct (jsstring_eqb k k') eqn:E; [exact IH|].
  cbn [lookup]. now rewrite E.
Qed.

Lemma lookup_deleteMember_other (k k' : jsstring) (m : list (jsstring * json)) :
  k <> k' -> lookup k (deleteMember k' m) = lookup k m.
Proof.
  intros Hk. induction m as [|[k'' v] m IH]; [reflexivity|].
  cbn [deleteMember lookup]. destruct (jsstring_eqb k' k'') eqn:E.
  - apply jsstring_eqb_eq in E. subst k''.
    destruct (jsstring_eqb k k') eqn:E'; [apply jsstring_eqb_eq in E'; contradiction | exact IH].
  - cbn [lookup]. now rewrite IH.
Qed.

(** X30. The Ollama adapter leaves a request alone unless its thinking or
    its reasoning_effort is truthy; then it deletes both, and only them: no
    other member changes. Keys present with a falsy value are thus kept.
    Preparing a prepared request changes nothing. *)
Theorem X30_ollama_prepareRequest (request : list (jsstring * json)) :
  prepareRequest (prepareRequest request) = prepareRequest request
  /\ (forall k : jsstring,
        k <> js "thinking" -> k <> js "reasoning_effort" ->
        lookup k (prepareRequest request) = lookup k request)
  /\ (if truthy (lookup (js "thinking") request)
         || truthy (lookup (js "reasoning_effort") request)
      then lookup (js "thinking") (prepareRequest request) = None
           /\ lookup (js "reasoning_effort") (prepareRequest request) = None
      else prepareRequest request = request).
Proof.
  destruct (truthy (lookup (js "thinking") request)
            || truthy (lookup (js "reasoning_effort") request)) eqn:E.
  - assert (Hp : prepareRequest request
                 = deleteMember (js "reasoning_effort") (deleteMember (js "thinking") request))
      by (unfold prepareRequest; now rewrite E).
    rewrite !Hp.
    assert (Ht : lookup (js "thinking")
                   (deleteMember (js "reasoning_effort") (deleteMember (js "thinking") request))
                 = None).
    { rewrite lookup_deleteMember_other by discriminate. apply lookup_deleteMember. }
    assert (Hr : lookup (js "reasoning_effort")
                   (deleteMember (js "reasoning_effort") (deleteMember (js "thinking") request))
                 = None) by apply lookup_deleteMember.
    split; [|split; [|split; assumption]].
    + unfold prepareRequest. now rewrite Ht, Hr.
    + intros k Hk1 Hk2. now rewrite !lookup_deleteMember_other.
  - assert (Hp : prepareRequest request = request)
      by (unfold prepareRequest; now rewrite E).
    rewrite !Hp. repeat split.
Qed.
